(** * TheraReach: the tic-tac-toe robot arm (TTTRobot.py)

    A shallow embedding of the game rule engine, the piece inventory, the
    motion sequencer and the turn loop of [TTTRobot.py], and the properties
    the specification states about them.

    Conventions of the embedding
    - the board is the numpy grid of integers: a list of rows of [Z]
      (0 = empty, 1 = player, 2 = robot); indexing outside the grid raises
      [IndexError] as numpy does;
    - module-level globals ([board], [blue_blocks_used], [red_blocks_used])
      and what has been commanded to the servo channels are fields of a
      [World] threaded through a state and exception monad [M];
    - the camera/vision adapter, the random generator, the keyboard and the
      servo driver ([adafruit_servokit], not part of the repository) are
      oracles gathered in an [Env]: nothing is assumed about what the driver
      reads back or which angles it takes;
    - servo angles are exact rationals ([Qc]); the clock counts milliseconds
      and advances by the time slept and by the time the camera takes;
    - [random.shuffle] is the exchange loop of the standard library over the
      environment's random stream;
    - [while] loops take fuel and report [OutOfFuel] when it is exhausted. *)

From Stdlib Require Import ZArith QArith Qcanon Lia.
From stdpp Require Import base option list gmap strings.

Set Default Proof Using "Type".
Open Scope nat_scope.

(** ** Results and exceptions *)

Inductive exn : Type :=
  | IndexError
  | KeyError
  | TypeError
  | ZeroDivisionError
  | ValueError.

Inductive Res (A : Type) : Type :=
  | Ok (a : A)
  | Raise (e : exn)
  | OutOfFuel.
Arguments Ok {A} a.
Arguments Raise {A} e.
Arguments OutOfFuel {A}.

#[global] Instance Res_ret : MRet Res := fun _ a => Ok a.
#[global] Instance Res_bind : MBind Res := fun _ _ f m =>
  match m with
  | Ok a => f a
  | Raise e => Raise e
  | OutOfFuel => OutOfFuel
  end.

(** A [for] loop whose body may [return]: [Some v] from the body leaves the
    loop with [v], [None] goes on with the next element. *)
Fixpoint for_first {A R : Type} (xs : list A) (body : A → Res (option R))
  : Res (option R) :=
  match xs with
  | [] => Ok None
  | x :: rest =>
      r ← body x;
      match r with
      | Some v => Ok (Some v)
      | None => for_first rest body
      end
  end.

(** ** The board *)

Abbreviation Board := (list (list Z)).

(** [np.zeros((3, 3), dtype=int)] *)
Definition empty_board : Board := replicate 3 (replicate 3 0%Z).

(** The shape the game works on. *)
Definition wf_board (b : Board) : Prop :=
  length b = 3 ∧ Forall (λ r, length r = 3) b.

(** [board[row, col]] *)
Definition board_get (b : Board) (row col : nat) : Res Z :=
  match b !! row with
  | Some r =>
      match r !! col with
      | Some v => Ok v
      | None => Raise IndexError
      end
  | None => Raise IndexError
  end.

(** [board[row, col] = v] *)
Definition board_set (b : Board) (row col : nat) (v : Z) : Res Board :=
  match b !! row with
  | Some r =>
      if decide (col < length r)
      then Ok (<[row := <[col := v]> r]> b)
      else Raise IndexError
  | None => Raise IndexError
  end.

(** [board[row, :]] *)
Definition row_slice (b : Board) (row : nat) : Res (list Z) :=
  match b !! row with
  | Some r => Ok r
  | None => Raise IndexError
  end.

(** [board[:, col]] *)
Fixpoint col_slice (b : Board) (col : nat) : Res (list Z) :=
  match b with
  | [] => Ok []
  | r :: rest =>
      match r !! col with
      | Some v => vs ← col_slice rest col; Ok (v :: vs)
      | None => Raise IndexError
      end
  end.

(** [np.all(xs == v)] *)
Definition np_all_eq (xs : list Z) (v : Z) : bool :=
  forallb (λ x, x =? v)%Z xs.

(** [board[row, col] == v] *)
Definition cell_is (b : Board) (row col : nat) (v : Z) : Res bool :=
  x ← board_get b row col; Ok (x =? v)%Z.

(** Python's short-circuit [and] on two tests. *)
Definition py_and (x y : Res bool) : Res bool :=
  a ← x; if (a : bool) then y else Ok false.

(** ** Game rule engine *)

Definition check_win (b : Board) (player : Z) : Res bool :=
  r ← for_first (seq 0 3) (λ row,
        xs ← row_slice b row;
        if np_all_eq xs player then Ok (Some true) else Ok (@None bool));
  match r with
  | Some v => Ok v
  | None =>
  r ← for_first (seq 0 3) (λ col,
        xs ← col_slice b col;
        if np_all_eq xs player then Ok (Some true) else Ok (@None bool));
  match r with
  | Some v => Ok v
  | None =>
  d ← py_and (cell_is b 0 0 player)
        (py_and (cell_is b 1 1 player) (cell_is b 2 2 player));
  if (d : bool) then Ok true else
  d ← py_and (cell_is b 0 2 player)
        (py_and (cell_is b 1 1 player) (cell_is b 2 0 player));
  if (d : bool) then Ok true else
  Ok false
  end end.

(** [0 not in board] *)
Definition check_draw (b : Board) : bool :=
  negb (existsb (existsb (λ x, x =? 0)%Z) b).

(** ** Configuration data *)

(** A pose: the five joint angles every catalog entry gives
    ([{"base": .., "shoulder": .., "elbow": .., "wrist_pitch": ..,
    "wrist_roll": ..}]). *)
Record Pose : Type := mkPose {
  base : Qc;
  shoulder : Qc;
  elbow : Qc;
  wrist_pitch : Qc;
  wrist_roll : Qc;
}.

(** An integer number of degrees. *)
Definition deg (z : Z) : Qc := Q2Qc (inject_Z z).

Definition SERVO_BASE : nat := 0.
Definition SERVO_SHOULDER : nat := 1.
Definition SERVO_ELBOW : nat := 2.
Definition SERVO_WRIST_PITCH : nat := 3.
Definition SERVO_WRIST_ROLL : nat := 4.
Definition SERVO_CLAW : nat := 5.

(** [board_positions[(row, col)]] *)
Definition board_positions (row col : nat) : option Pose :=
  match row, col with
  | 0, 0 => Some (mkPose (deg 30) (deg 90) (deg 45) (deg 0) (deg 90))
  | 0, 1 => Some (mkPose (deg 30) (deg 100) (deg 45) (deg 0) (deg 90))
  | 0, 2 => Some (mkPose (deg 30) (deg 110) (deg 45) (deg 0) (deg 90))
  | 1, 0 => Some (mkPose (deg 60) (deg 90) (deg 45) (deg 0) (deg 90))
  | 1, 1 => Some (mkPose (deg 60) (deg 100) (deg 45) (deg 0) (deg 90))
  | 1, 2 => Some (mkPose (deg 60) (deg 110) (deg 45) (deg 0) (deg 90))
  | 2, 0 => Some (mkPose (deg 90) (deg 90) (deg 45) (deg 0) (deg 90))
  | 2, 1 => Some (mkPose (deg 90) (deg 100) (deg 45) (deg 0) (deg 90))
  | 2, 2 => Some (mkPose (deg 90) (deg 110) (deg 45) (deg 0) (deg 90))
  | _, _ => None
  end.

(** [blue_storage[n]] *)
Definition blue_storage (n : nat) : option Pose :=
  match n with
  | 1 => Some (mkPose (deg 150) (deg 80) (deg 45) (deg 0) (deg 90))
  | 2 => Some (mkPose (deg 150) (deg 90) (deg 45) (deg 0) (deg 90))
  | 3 => Some (mkPose (deg 150) (deg 100) (deg 45) (deg 0) (deg 90))
  | 4 => Some (mkPose (deg 150) (deg 110) (deg 45) (deg 0) (deg 90))
  | 5 => Some (mkPose (deg 150) (deg 120) (deg 45) (deg 0) (deg 90))
  | _ => None
  end.

(** [red_storage[n]] *)
Definition red_storage (n : nat) : option Pose :=
  match n with
  | 1 => Some (mkPose (deg 180) (deg 80) (deg 45) (deg 0) (deg 90))
  | 2 => Some (mkPose (deg 180) (deg 90) (deg 45) (deg 0) (deg 90))
  | 3 => Some (mkPose (deg 180) (deg 100) (deg 45) (deg 0) (deg 90))
  | 4 => Some (mkPose (deg 180) (deg 110) (deg 45) (deg 0) (deg 90))
  | 5 => Some (mkPose (deg 180) (deg 120) (deg 45) (deg 0) (deg 90))
  | _ => None
  end.

Definition home_position : Pose :=
  mkPose (deg 120) (deg 45) (deg 90) (deg 0) (deg 90).

(** ** The world: globals, devices and the console *)

(** What the program prints. *)
Inductive msg : Type :=
  | MovingArm (p : Pose)
  | ArmInPosition
  | OpeningClaw
  | ClosingClaw
  | WarnNoMoreBlocks
  | ErrNoBlocks
  | PickingRed (n : nat)
  | PickingBlue (n : nat)
  | PlacingBlock (row col : nat)
  | MovingHome
  | AnalyzeFailed
  | DetectFailed
  | DetectedMove (row col : nat)
  | NoValidMove
  | WaitingForPlayer
  | NoMoveYet (interval : Z)
  | WaitTimedOut
  | BoardShown (b : Board)
  | StartingGame
  | InitialScanFailed
  | WarnNotEmpty
  | WaitingFirstMove
  | GameAborted
  | PlayerWins
  | ItsADraw
  | RobotsTurn
  | RobotDecides (row col : nat)
  | RobotWins
  | OutOfBlocks
  | GameOver.

(** What the program does to the outside: a line printed, or an angle
    commanded to a servo channel ([kit.servo[n].angle = a]). *)
Inductive event : Type :=
  | Printed (m : msg)
  | ServoSet (n : nat) (a : Qc).

Record World : Type := mkWorld {
  board : Board;                 (* the global [board] *)
  blue_blocks_used : list bool;
  red_blocks_used : list bool;
  servo : gmap nat Qc;           (* last angle commanded per channel *)
  clock : Z;                     (* [time.time()], in milliseconds *)
  polls : nat;                   (* board analyses requested so far *)
  draws : nat;                   (* random numbers drawn so far *)
  asked : nat;                   (* [input()] lines read so far *)
  log : list event;              (* oldest first *)
}.

(** What reading [kit.servo[n].angle] gives: the driver raises, or it
    returns [None], or it returns a number. *)
Inductive reading : Type :=
  | Fails (e : exn)
  | NoAngle
  | Angle (a : Qc).

(** The collaborators outside the program. *)
Record Env : Type := mkEnv {
  perceive : nat → option Board; (* k-th capture and analysis; [None]: failed *)
  latency : nat → nat;           (* milliseconds the k-th analysis takes *)
  rnd : nat → nat;               (* the random stream *)
  answer : nat → string;         (* the k-th line typed *)
  kit_angle : nat → option Qc → reading;
    (* what channel n reads back, given the last angle commanded to it *)
  kit_set : nat → Qc → option exn;
    (* what the driver raises, if anything, when channel n is given an angle *)
}.

Definition M (A : Type) : Type := World → Res A * World.

#[global] Instance M_ret : MRet M := λ _ a w, (Ok a, w).
#[global] Instance M_bind : MBind M := λ _ _ f m w,
  match m w with
  | (Ok a, w') => f a w'
  | (Raise e, w') => (Raise e, w')
  | (OutOfFuel, w') => (OutOfFuel, w')
  end.

Definition lift {A : Type} (r : Res A) : M A := λ w, (r, w).
Definition raise {A : Type} (e : exn) : M A := lift (Raise e).
Definition gets {A : Type} (f : World → A) : M A := λ w, (Ok (f w), w).
Definition modify (f : World → World) : M unit := λ w, (Ok tt, f w).

Definition set_board (b : Board) (w : World) : World :=
  mkWorld b (blue_blocks_used w) (red_blocks_used w) (servo w) (clock w)
          (polls w) (draws w) (asked w) (log w).
Definition set_blue (l : list bool) (w : World) : World :=
  mkWorld (board w) l (red_blocks_used w) (servo w) (clock w)
          (polls w) (draws w) (asked w) (log w).
Definition set_red (l : list bool) (w : World) : World :=
  mkWorld (board w) (blue_blocks_used w) l (servo w) (clock w)
          (polls w) (draws w) (asked w) (log w).
Definition set_servo (s : gmap nat Qc) (w : World) : World :=
  mkWorld (board w) (blue_blocks_used w) (red_blocks_used w) s (clock w)
          (polls w) (draws w) (asked w) (log w).
Definition set_clock (t : Z) (w : World) : World :=
  mkWorld (board w) (blue_blocks_used w) (red_blocks_used w) (servo w) t
          (polls w) (draws w) (asked w) (log w).
Definition set_polls (n : nat) (w : World) : World :=
  mkWorld (board w) (blue_blocks_used w) (red_blocks_used w) (servo w)
          (clock w) n (draws w) (asked w) (log w).
Definition set_draws (n : nat) (w : World) : World :=
  mkWorld (board w) (blue_blocks_used w) (red_blocks_used w) (servo w)
          (clock w) (polls w) n (asked w) (log w).
Definition set_asked (n : nat) (w : World) : World :=
  mkWorld (board w) (blue_blocks_used w) (red_blocks_used w) (servo w)
          (clock w) (polls w) (draws w) n (log w).
Definition set_log (l : list event) (w : World) : World :=
  mkWorld (board w) (blue_blocks_used w) (red_blocks_used w) (servo w)
          (clock w) (polls w) (draws w) (asked w) l.

(** [print(...)] *)
Definition say (m : msg) : M unit :=
  modify (λ w, set_log (log w ++ [Printed m]) w).

(** [time.sleep(ms)] *)
Definition sleep (ms : Z) : M unit :=
  modify (λ w, set_clock (clock w + ms)%Z w).

(** [kit.servo[n].angle = a]: the driver takes the angle or raises. *)
Definition servo_write (env : Env) (n : nat) (a : Qc) : M unit :=
  match kit_set env n a with
  | Some e => raise e
  | None =>
      modify (λ w, set_log (log w ++ [ServoSet n a])
                     (set_servo (<[n := a]> (servo w)) w))
  end.

(** [kit.servo[n].angle]: what the driver reads back. *)
Definition servo_read (env : Env) (n : nat) : M reading :=
  gets (λ w, kit_angle env n (servo w !! n)).

(** [board[row, col]] on the global board *)
Definition board_at (row col : nat) : M Z :=
  b ← gets board; lift (board_get b row col).

(** [board[row, col] = v] on the global board, in place *)
Definition board_store (row col : nat) (v : Z) : M unit :=
  b ← gets board; b' ← lift (board_set b row col v); modify (set_board b').

(** A [for] loop in [M] whose body may [return]. *)
Fixpoint for_each {A R : Type} (xs : list A) (body : A → M (option R))
  : M (option R) :=
  match xs with
  | [] => mret None
  | x :: rest =>
      r ← body x;
      match r with
      | Some v => mret (Some v)
      | None => for_each rest body
      end
  end.

(** A [for] loop in [M] without [return]. *)
Fixpoint for_do {A : Type} (xs : list A) (body : A → M unit) : M unit :=
  match xs with
  | [] => mret tt
  | x :: rest => body x;; for_do rest body
  end.

(** ** Motion sequencer *)

Definition default_steps : nat := 10.
Definition default_delay : Z := 50.        (* 0.05 s *)

(** [move_servo_smoothly(servo_num, target_angle, current_angle, steps, delay)].
    Without a given [current_angle] the channel is read inside the [try]:
    a read that raises falls back to the target; a read that returns [None]
    is no exception, so [current_angle] stays [None] and the subtraction
    that follows raises [TypeError]. *)
Definition move_servo_smoothly (env : Env) (servo_num : nat) (target_angle : Qc)
    (current_angle : option Qc) (steps : nat) (delay : Z) : M unit :=
  current_angle ←
    match current_angle with
    | Some a => mret a
    | None =>
        r ← servo_read env servo_num;
        match r with
        | Angle a => mret a
        | Fails _ => mret target_angle
        | NoAngle => raise TypeError
        end
    end;
  if decide (steps = 0) then raise ZeroDivisionError else
  let step_size := ((target_angle - current_angle) / deg (Z.of_nat steps))%Qc in
  for_do (seq 0 steps) (λ step,
    let angle := (current_angle + step_size * deg (Z.of_nat (step + 1)))%Qc in
    servo_write env servo_num angle;;
    sleep delay).

Definition move_arm_to_position (env : Env) (position : Pose) (smooth : bool)
  : M unit :=
  say (MovingArm position);;
  (if smooth then
     move_servo_smoothly env SERVO_BASE (base position) None default_steps default_delay;;
     move_servo_smoothly env SERVO_SHOULDER (shoulder position) None default_steps default_delay;;
     move_servo_smoothly env SERVO_ELBOW (elbow position) None default_steps default_delay;;
     move_servo_smoothly env SERVO_WRIST_PITCH (wrist_pitch position) None default_steps default_delay;;
     move_servo_smoothly env SERVO_WRIST_ROLL (wrist_roll position) None default_steps default_delay
   else
     servo_write env SERVO_BASE (base position);;
     servo_write env SERVO_SHOULDER (shoulder position);;
     servo_write env SERVO_ELBOW (elbow position);;
     servo_write env SERVO_WRIST_PITCH (wrist_pitch position);;
     servo_write env SERVO_WRIST_ROLL (wrist_roll position);;
     sleep 1000);;
  say ArmInPosition.

Definition open_claw (env : Env) : M unit :=
  say OpeningClaw;;
  move_servo_smoothly env SERVO_CLAW (deg 0) None default_steps default_delay.

Definition close_claw (env : Env) : M unit :=
  say ClosingClaw;;
  move_servo_smoothly env SERVO_CLAW (deg 90) None default_steps default_delay.

(** ** Piece inventory *)

(** The [for i, used in enumerate(blocks_used)] scan: the index of the first
    block not yet used, counting from [i]. *)
Fixpoint first_unused (i : nat) (blocks_used : list bool) : option nat :=
  match blocks_used with
  | [] => None
  | used :: rest => if negb used then Some i else first_unused (S i) rest
  end.

Definition blocks_of (is_robot_block : bool) (w : World) : list bool :=
  if is_robot_block then red_blocks_used w else blue_blocks_used w.

Definition set_blocks (is_robot_block : bool) (l : list bool) : World → World :=
  if is_robot_block then set_red l else set_blue l.

(** [blocks_used] aliases the global list, so the assignment
    [blocks_used[i] = True] is a write to the global. *)
Definition get_next_available_block (is_robot_block : bool) : M (option nat) :=
  blocks_used ← gets (blocks_of is_robot_block);
  match first_unused 0 blocks_used with
  | Some i =>
      modify (set_blocks is_robot_block (<[i := true]> blocks_used));;
      mret (Some (i + 1))
  | None =>
      say WarnNoMoreBlocks;;
      mret None
  end.

(** A lookup in one of the pose catalogs. *)
Definition catalog (p : option Pose) : M Pose :=
  match p with
  | Some pose => mret pose
  | None => raise KeyError
  end.

(** A servo angle read outside any [try]: what the driver raises goes up,
    and the arithmetic that follows needs a number. *)
Definition servo_angle (env : Env) (n : nat) : M Qc :=
  r ← servo_read env n;
  match r with
  | Angle a => mret a
  | Fails e => raise e
  | NoAngle => raise TypeError
  end.

Definition pick_block (env : Env) (is_robot_block : bool) : M bool :=
  block_num ← get_next_available_block is_robot_block;
  match block_num with
  | None => say ErrNoBlocks;; mret false
  | Some block_num =>
      (if is_robot_block then
         say (PickingRed block_num);;
         p ← catalog (red_storage block_num);
         move_arm_to_position env p true
       else
         say (PickingBlue block_num);;
         p ← catalog (blue_storage block_num);
         move_arm_to_position env p true);;
      open_claw env;;
      sleep 500;;
      current_wrist ← servo_angle env SERVO_WRIST_PITCH;
      move_servo_smoothly env SERVO_WRIST_PITCH (current_wrist + deg 30)%Qc None
        default_steps default_delay;;
      sleep 500;;
      close_claw env;;
      sleep 500;;
      move_servo_smoothly env SERVO_WRIST_PITCH current_wrist None
        default_steps default_delay;;
      sleep 500;;
      mret true
  end.

Definition place_block (env : Env) (row col : nat) : M unit :=
  say (PlacingBlock row col);;
  p ← catalog (board_positions row col);
  move_arm_to_position env p true;;
  current_wrist ← servo_angle env SERVO_WRIST_PITCH;
  move_servo_smoothly env SERVO_WRIST_PITCH (current_wrist + deg 30)%Qc None
    default_steps default_delay;;
  sleep 500;;
  open_claw env;;
  sleep 500;;
  move_servo_smoothly env SERVO_WRIST_PITCH current_wrist None
    default_steps default_delay;;
  sleep 500.

Definition move_to_home (env : Env) : M unit :=
  say MovingHome;;
  move_arm_to_position env home_position true.

(** ** Move selection *)

Section Program.
Context (env : Env).

(** [random.shuffle]: the exchange loop of the standard library
    ([for i in reversed(range(1, len(x))): j = randbelow(i + 1);
    x[i], x[j] = x[j], x[i]]), drawing from the environment's stream. *)
Definition randbelow (n : nat) : M nat :=
  k ← gets draws;
  modify (set_draws (S k));;
  mret (rnd env k `mod` n).

Definition exchange {A : Type} (x : list A) (i j : nat) : list A :=
  match x !! i, x !! j with
  | Some a, Some b => <[j := a]> (<[i := b]> x)
  | _, _ => x
  end.

Fixpoint shuffle_down {A : Type} (i : nat) (x : list A) : M (list A) :=
  match i with
  | 0 => mret x
  | S i' =>
      j ← randbelow (i + 1);
      shuffle_down i' (exchange x i j)
  end.

Definition shuffle {A : Type} (x : list A) : M (list A) :=
  shuffle_down (length x - 1) x.

(** The body of the two look-ahead scans: try [mark] in an empty cell, test
    for a win, take the mark back. *)
Definition try_cell (mark : Z) (row col : nat) : M (option (nat * nat)) :=
  v ← board_at row col;
  if (v =? 0)%Z then
    board_store row col mark;;
    b ← gets board;
    won ← lift (check_win b mark);
    if (won : bool) then
      board_store row col 0;;
      mret (Some (row, col))
    else
      board_store row col 0;;
      mret None
  else mret None.

(** The body of the corner and edge loops. *)
Definition take_if_empty (cell : nat * nat) : M (option (nat * nat)) :=
  let '(row, col) := cell in
  v ← board_at row col;
  if (v =? 0)%Z then mret (Some (row, col)) else mret None.

(** [get_robot_move()]; falling off the end of the function is Python's
    implicit [return None]. *)
Definition get_robot_move : M (option (nat * nat)) :=
  r ← for_each (seq 0 3) (λ row, for_each (seq 0 3) (λ col, try_cell 2 row col));
  match r with
  | Some mv => mret (Some mv)
  | None =>
  r ← for_each (seq 0 3) (λ row, for_each (seq 0 3) (λ col, try_cell 1 row col));
  match r with
  | Some mv => mret (Some mv)
  | None =>
  c ← board_at 1 1;
  if (c =? 0)%Z then mret (Some (1, 1)) else
  corners ← shuffle [(0, 0); (0, 2); (2, 0); (2, 2)];
  r ← for_each corners take_if_empty;
  match r with
  | Some mv => mret (Some mv)
  | None =>
  edges ← shuffle [(0, 1); (1, 0); (1, 2); (2, 1)];
  r ← for_each edges take_if_empty;
  match r with
  | Some mv => mret (Some mv)
  | None => mret None
  end end end end.

End Program.

(** ** Perception and the turn loop *)

(** [str.lower()] on the letters that matter for a one-letter answer. *)
Definition ascii_lower (c : Ascii.ascii) : Ascii.ascii :=
  let n := Ascii.nat_of_ascii c in
  if decide (65 ≤ n ≤ 90) then Ascii.ascii_of_nat (n + 32) else c.

Fixpoint lower (s : string) : string :=
  match s with
  | EmptyString => EmptyString
  | String c rest => String (ascii_lower c) (lower rest)
  end.

(** A 64-bit signed integer after wrap-around. *)
Definition wrap64 (z : Z) : Z := ((z + 2 ^ 63) mod 2 ^ 64 - 2 ^ 63)%Z.

(** [np.sum(board)] on numpy's 64-bit integers: the sum wraps around. *)
Definition np_sum (b : Board) : Z :=
  wrap64 (foldr (λ r acc, foldr Z.add 0 r + acc)%Z 0%Z b).

(** [symbols[v]] for [symbols = {0: " ", 1: "X", 2: "O"}] *)
Definition symbols (v : Z) : option string :=
  if (v =? 0)%Z then Some " "
  else if (v =? 1)%Z then Some "X"
  else if (v =? 2)%Z then Some "O"
  else None.

Section Game.
Context (env : Env).

(** [analyze_board_state()]: capture and analysis are the k-th answer of the
    perception oracle; a detected grid replaces the global board. *)
Definition analyze_board_state : M bool :=
  k ← gets polls;
  modify (set_polls (S k));;
  sleep (Z.of_nat (latency env k));;
  match perceive env k with
  | Some detected_board =>
      modify (set_board detected_board);;
      mret true
  | None =>
      say AnalyzeFailed;;
      mret false
  end.

Definition detect_player_move (prev_board : Board) : M (option (nat * nat)) :=
  ok ← analyze_board_state;
  if negb ok then
    say DetectFailed;;
    mret None
  else
    r ← for_each (seq 0 3) (λ row, for_each (seq 0 3) (λ col,
          p ← lift (board_get prev_board row col);
          if (p =? 0)%Z then
            c ← board_at row col;
            if (c =? 1)%Z then
              say (DetectedMove row col);;
              mret (Some (row, col))
            else mret None
          else mret None));
    match r with
    | Some mv => mret (Some mv)
    | None =>
        say NoValidMove;;
        mret None
    end.

(** The [while time.time() - start_time < timeout] loop. *)
Fixpoint wait_loop (fuel : nat) (prev_board : Board)
    (start_time timeout check_interval : Z) : M (option (nat * nat)) :=
  now ← gets clock;
  if (now - start_time <? timeout)%Z then
    match fuel with
    | 0 => lift OutOfFuel
    | S fuel' =>
        move ← detect_player_move prev_board;
        match move with
        | Some mv => mret (Some mv)
        | None =>
            say (NoMoveYet check_interval);;
            sleep check_interval;;
            wait_loop fuel' prev_board start_time timeout check_interval
        end
    end
  else
    say WaitTimedOut;;
    mret None.

Definition wait_for_player_move (fuel : nat) (prev_board : Board)
    (timeout check_interval : Z) : M (option (nat * nat)) :=
  say WaitingForPlayer;;
  start_time ← gets clock;
  wait_loop fuel prev_board start_time timeout check_interval.

Definition default_timeout : Z := 60000.         (* 60 s *)
Definition default_check_interval : Z := 5000.   (* 5 s *)

(** [display_board()]: the lines of the grid are gathered in one message;
    a cell outside 0, 1, 2 has no symbol. *)
Definition display_board : M unit :=
  b ← gets board;
  for_do (seq 0 3) (λ row, for_do (seq 0 3) (λ col,
    v ← board_at row col;
    match symbols v with
    | Some _ => mret tt
    | None => raise KeyError
    end));;
  say (BoardShown b).

Definition reset_game : M unit :=
  modify (set_board empty_board);;
  modify (set_blue (replicate 5 false));;
  modify (set_red (replicate 5 false)).

(** [input(...)] *)
Definition input : M string :=
  k ← gets asked;
  modify (set_asked (S k));;
  mret (answer env k).

(** The robot's turn: the [else] branch of the loop body of [run_game];
    the result is the new value of [game_over]. *)
Definition robot_turn : M bool :=
  say RobotsTurn;;
  mv ← get_robot_move env;
  match mv with
  | None => raise TypeError       (* unpacking [None] into row, col *)
  | Some (robot_row, robot_col) =>
      say (RobotDecides robot_row robot_col);;
      picked ← pick_block env true;
      if (picked : bool) then
        place_block env robot_row robot_col;;
        move_to_home env;;
        board_store robot_row robot_col 2;;
        display_board;;
        b ← gets board;
        won ← lift (check_win b 2);
        if (won : bool) then
          say RobotWins;;
          mret true
        else
          b ← gets board;
          if check_draw b then
            say ItsADraw;;
            mret true
          else mret false
      else
        say OutOfBlocks;;
        mret true
  end.

(** The [while not game_over] loop of [run_game] and what follows it. *)
Fixpoint run_game_loop (fuel : nat) : M bool :=
  match fuel with
  | 0 => lift OutOfFuel
  | S fuel' =>
      prev_board ← gets board;
      player_move ← wait_for_player_move fuel prev_board
                      default_timeout default_check_interval;
      match player_move with
      | None =>
          say GameAborted;;
          mret false
      | Some _ =>
          display_board;;
          b ← gets board;
          won ← lift (check_win b 1);
          game_over ←
            (if (won : bool) then
               say PlayerWins;;
               mret true
             else
               b ← gets board;
               if check_draw b then
                 say ItsADraw;;
                 mret true
               else robot_turn);
          if (game_over : bool) then
            say GameOver;;
            mret true
          else run_game_loop fuel'
      end
  end.

Definition run_game (fuel : nat) : M bool :=
  reset_game;;
  say StartingGame;;
  move_to_home env;;
  ok ← analyze_board_state;
  if negb ok then
    say InitialScanFailed;;
    mret false
  else
    b ← gets board;
    go ←
      (if (np_sum b >? 0)%Z then
         say WarnNotEmpty;;
         display_board;;
         clear ← input;
         if decide (lower clear = "y") then mret true else mret false
       else mret true);
    if negb go then mret false
    else
      say WaitingFirstMove;;
      run_game_loop fuel.

End Game.

(** ** Sample worlds and environments *)

Definition world0 : World :=
  mkWorld empty_board (replicate 5 false) (replicate 5 false) ∅ 0 0 0 0 [].

(** A world whose board is [b]. *)
Definition world_with (b : Board) : World := set_board b world0.

(** A world whose six channels have been commanded before: the arm at the
    home pose, the claw open. *)
Definition ready_world : World :=
  set_servo (<[SERVO_BASE := base home_position]>
             (<[SERVO_SHOULDER := shoulder home_position]>
              (<[SERVO_ELBOW := elbow home_position]>
               (<[SERVO_WRIST_PITCH := wrist_pitch home_position]>
                (<[SERVO_WRIST_ROLL := wrist_roll home_position]>
                 (<[SERVO_CLAW := deg 0]> ∅))))))
    world0.

(** A servo driver that reads a commanded channel back exactly and gives
    [None] on a channel never commanded. *)
Definition reads_back (n : nat) (last : option Qc) : reading :=
  match last with
  | Some a => Angle a
  | None => NoAngle
  end.

(** The angle lies in 0..180 degrees. *)
Definition in_range (a : Qc) : bool :=
  match (deg 0 ?= a)%Qc, (a ?= deg 180)%Qc with
  | Gt, _ | _, Gt => false
  | _, _ => true
  end.

(** A servo driver that refuses an angle outside 0..180 degrees. *)
Definition range_checked (n : nat) (a : Qc) : option exn :=
  if in_range a then None else Some ValueError.

(** An environment where the camera never delivers. *)
Definition blind_env : Env :=
  mkEnv (λ _, None) (λ _, 0) (λ _, 0) (λ _, "n") reads_back range_checked.

(** * Vocabulary of the properties *)

(** ** Lines and cells *)

(** The three rows, the three columns and the two diagonals. *)
Definition win_lines : list (list (nat * nat)) :=
  [ [(0, 0); (0, 1); (0, 2)];
    [(1, 0); (1, 1); (1, 2)];
    [(2, 0); (2, 1); (2, 2)];
    [(0, 0); (1, 0); (2, 0)];
    [(0, 1); (1, 1); (2, 1)];
    [(0, 2); (1, 2); (2, 2)];
    [(0, 0); (1, 1); (2, 2)];
    [(0, 2); (1, 1); (2, 0)] ].

(** Every cell of the line holds [side]. *)
Definition line_full (b : Board) (side : Z) (l : list (nat * nat)) : Prop :=
  ∀ row col, (row, col) ∈ l → board_get b row col = Ok side.

(** The cell reads [side]; outside the grid nothing does. *)
Definition cell_isb (b : Board) (side : Z) (cell : nat * nat) : bool :=
  match board_get b cell.1 cell.2 with
  | Ok v => (v =? side)%Z
  | _ => false
  end.

(** [line_full] as a test. *)
Definition line_fullb (b : Board) (side : Z) (l : list (nat * nat)) : bool :=
  forallb (cell_isb b side) l.

(** ** Move selection, tier by tier *)

(** The cell is empty and putting [mark] there makes [mark] win. *)
Definition wins_at (b : Board) (mark : Z) (cell : nat * nat) : bool :=
  match board_get b cell.1 cell.2 with
  | Ok v =>
      (v =? 0)%Z &&
      match board_set b cell.1 cell.2 mark with
      | Ok b' =>
          match check_win b' mark with
          | Ok won => won
          | _ => false
          end
      | _ => false
      end
  | _ => false
  end.

(** The nine cells in row-major order. *)
Definition cells : list (nat * nat) :=
  [(0, 0); (0, 1); (0, 2); (1, 0); (1, 1); (1, 2); (2, 0); (2, 1); (2, 2)].

(** The first answer a list of candidates gives. *)
Fixpoint first_some {A R : Type} (f : A → option R) (xs : list A) : option R :=
  match xs with
  | [] => None
  | x :: rest =>
      match f x with
      | Some v => Some v
      | None => first_some f rest
      end
  end.

(** The corners and the edges, in the order the source lists them. *)
Definition corner_cells : list (nat * nat) := [(0, 0); (0, 2); (2, 0); (2, 2)].
Definition edge_cells : list (nat * nat) := [(0, 1); (1, 0); (1, 2); (2, 1)].

(** The cell itself when it is empty. *)
Definition if_empty (b : Board) (cell : nat * nat) : option (nat * nat) :=
  if cell_isb b 0 cell then Some cell else None.

(** The five tiers, for given shuffled orders of the corners and edges. *)
Definition choose (b : Board) (corners edges : list (nat * nat))
  : option (nat * nat) :=
  match find (wins_at b 2) cells with
  | Some mv => Some mv
  | None =>
  match find (wins_at b 1) cells with
  | Some mv => Some mv
  | None =>
  if cell_isb b 0 (1, 1) then Some (1, 1) else
  match first_some (if_empty b) corners with
  | Some mv => Some mv
  | None => first_some (if_empty b) edges
  end end end.

(** The cell is empty and [mark] placed there completes a line. *)
Definition wins_by_placing (b : Board) (mark : Z) (row col : nat) : Prop :=
  board_get b row col = Ok 0%Z
  ∧ ∃ b', board_set b row col mark = Ok b' ∧ check_win b' mark = Ok true.

(** Row-major order on coordinates. *)
Definition row_major_before (c1 c2 : nat * nat) : Prop :=
  c1.1 < c2.1 ∨ (c1.1 = c2.1 ∧ c1.2 < c2.2).

(** ** Inventory and motion *)

(** [n] successive calls of [get_next_available_block] for one side. *)
Fixpoint allocate_times (n : nat) (is_robot_block : bool) : M (list (option nat)) :=
  match n with
  | 0 => mret []
  | S n' =>
      r ← get_next_available_block is_robot_block;
      rs ← allocate_times n' is_robot_block;
      mret (r :: rs)
  end.





(** The angle a smooth move starts from: the one given, else the one the
    driver reads, or the target when the read raises; there is none when
    the read gives [None]. *)
Definition start_angle (env : Env) (n : nat) (target : Qc)
    (current : option Qc) (w : World) : option Qc :=
  match current with
  | Some a => Some a
  | None =>
      match kit_angle env n (servo w !! n) with
      | Angle a => Some a
      | Fails _ => Some target
      | NoAngle => None
      end
  end.

(** The angle of step [k] (counted from 0) of an interpolation from [cur]
    to [target] in [steps] steps. *)
Definition step_angle (cur target : Qc) (steps k : nat) : Qc :=
  (cur + (target - cur) / deg (Z.of_nat steps) * deg (Z.of_nat (k + 1)))%Qc.




(** ** The turn loop *)

(** The perceived grid [b'] shows no cell that was empty in the snapshot
    [prev] and now carries a player mark. *)
Definition no_new_player_mark (prev b' : Board) : Prop :=
  ∀ row col,
    ¬ (board_get prev row col = Ok 0%Z ∧ board_get b' row col = Ok 1%Z).

(** The events of waiting: the lines printed while polling and giving up.
    No servo command and no line of the robot's turn is among them. *)
Definition waiting_only (e : event) : bool :=
  match e with
  | Printed WaitingForPlayer
  | Printed AnalyzeFailed
  | Printed DetectFailed
  | Printed NoValidMove
  | Printed (NoMoveYet _)
  | Printed WaitTimedOut
  | Printed GameAborted => true
  | _ => false
  end.

(** From [w] to [w'] the robot did nothing: servos, inventories, the random
    stream and the keyboard are as they were, and only waiting was logged. *)
Definition quiet (w w' : World) : Prop :=
  servo w' = servo w
  ∧ blue_blocks_used w' = blue_blocks_used w
  ∧ red_blocks_used w' = red_blocks_used w
  ∧ draws w' = draws w
  ∧ asked w' = asked w
  ∧ ∃ evs, log w' = log w ++ evs ∧ Forall (λ e, waiting_only e = true) evs.

(** A camera that keeps showing the empty board, half a second per look. *)
Definition still_env : Env :=
  mkEnv (λ _, Some empty_board) (λ _, 500) (λ _, 0) (λ _, "n")
        reads_back range_checked.

(** Every cell holds one of the three marks. *)
Definition valid_cells (b : Board) : Prop :=
  ∀ row col v, board_get b row col = Ok v → (0 ≤ v ≤ 2)%Z.

(** A camera that always shows one player mark in the corner. *)
Definition corner_env : Env :=
  mkEnv (λ _, Some [[1; 0; 0]; [0; 0; 0]; [0; 0; 0]]%Z)
        (λ _, 500) (λ _, 0) (λ _, "n") reads_back range_checked.

(** A world at the start of a turn with every red block used. *)
Definition spent_world : World := set_red (replicate 5 true) world0.

(** A camera that shows, at its k-th look, a lone player mark in column
    [k mod 3] of the top row (and an empty board at the first look). *)
Definition fickle_env : Env :=
  mkEnv (λ k, match k with
              | 0 => Some empty_board
              | _ => Some (<[0 := <[k `mod` 3 := 1%Z]> [0; 0; 0]%Z]> empty_board)
              end)
        (λ _, 100) (λ k, k) (λ _, "n") reads_back range_checked.

(** * Vocabulary of the further properties *)

(** ** Frames *)

(** Whatever the outcome, [m] does not stop for lack of fuel and takes a
    world to one related to it by [R]. *)
Definition respects {A : Type} (R : relation World) (m : M A) : Prop :=
  ∀ w, fst (m w) ≠ OutOfFuel ∧ R w (snd (m w)).

(** What the game knows: the board, the inventories and how far the
    oracles have been consulted. *)
Definition game_state (w : World)
  : Board * list bool * list bool * nat * nat * nat :=
  (board w, blue_blocks_used w, red_blocks_used w, polls w, draws w, asked w).

(** The part [proj] of the world is untouched. *)
Definition same {X : Type} (proj : World → X) : relation World :=
  λ w w', proj w' = proj w.

(** What the robot holds and has consumed: servo angles, inventories, and
    how far the random stream and the keyboard have been read. *)
Definition robot_state (w : World)
  : gmap nat Qc * list bool * list bool * nat * nat :=
  (servo w, blue_blocks_used w, red_blocks_used w, draws w, asked w).

(** The two inventories. *)
Definition inventory (w : World) : list bool * list bool :=
  (blue_blocks_used w, red_blocks_used w).

(** What choosing a move cannot touch: everything but the board and the
    position in the random stream. *)
Definition beyond_thinking (w : World)
  : gmap nat Qc * list bool * list bool * nat * nat * Z * list event :=
  (servo w, blue_blocks_used w, red_blocks_used w, polls w, asked w,
   clock w, log w).

(** ** Motion *)



(** ** Watching the player *)

(** The cell was empty in the snapshot [prev] and carries a player mark in
    the perceived grid [b']. *)
Definition new_player_mark (prev b' : Board) (row col : nat) : Prop :=
  board_get prev row col = Ok 0%Z ∧ board_get b' row col = Ok 1%Z.

(** [new_player_mark] as a test. *)
Definition is_new_mark (prev b' : Board) (cell : nat * nat) : bool :=
  cell_isb prev 0 cell && cell_isb b' 1 cell.

(** Everything but the log. *)
Definition but_log (w : World)
  : Board * list bool * list bool * gmap nat Qc * Z * nat * nat * nat :=
  (board w, blue_blocks_used w, red_blocks_used w, servo w, clock w,
   polls w, draws w, asked w).

(** ** The length of a game *)

(** How many blocks of an inventory are still unused. *)
Fixpoint unused (blocks_used : list bool) : nat :=
  match blocks_used with
  | [] => 0
  | used :: rest => (if used : bool then 0 else 1) + unused rest
  end.

(** * Properties *)

(** ** Sample evaluations *)

Example check_win_row : check_win [[1;1;1];[2;2;0];[0;0;0]]%Z 1 = Ok true.
Proof. reflexivity. Qed.
Example check_win_anti : check_win [[1;1;2];[1;2;0];[2;0;0]]%Z 2 = Ok true.
Proof. reflexivity. Qed.
Example check_win_none : check_win [[1;1;2];[1;2;0];[0;0;0]]%Z 2 = Ok false.
Proof. reflexivity. Qed.
Example check_win_shape : check_win [[1;1];[1;2];[0;0]]%Z 2 = Raise IndexError.
Proof. reflexivity. Qed.

(** Both diagonals are open to the robot here; the scan meets (2,0) first. *)
Example get_robot_move_two_wins :
  fst (get_robot_move blind_env (world_with [[2;1;2];[1;2;1];[0;0;0]]%Z))
  = Ok (Some (2, 0)).
Proof. reflexivity. Qed.

(** A full board: the function falls off its end. *)
Example get_robot_move_full :
  fst (get_robot_move blind_env (world_with [[2;1;2];[1;1;2];[1;2;1]]%Z))
  = Ok None.
Proof. reflexivity. Qed.

(** The centre is taken when nobody can win at once. *)
Example get_robot_move_centre :
  fst (get_robot_move blind_env (world_with [[1;0;0];[0;0;0];[0;0;0]]%Z))
  = Ok (Some (1, 1)).
Proof. reflexivity. Qed.

(** The exchange loop on four elements with the draws 2, 3, 4. *)
Example shuffle_sample :
  fst (shuffle (mkEnv (λ _, None) (λ _, 0) (λ k, k + 2) (λ _, "n")
                  reads_back range_checked)
         [1; 2; 3; 4] world0)
  = Ok [2; 4; 1; 3].
Proof. reflexivity. Qed.

(** A blind camera: the game stops after the arm has gone home. *)
Example run_game_blind :
  fst (run_game blind_env 1 ready_world) = Ok false.
Proof. vm_compute. reflexivity. Qed.

(** Channels never commanded: the first move home reads [None] and the
    game stops there with [TypeError]. *)
Example run_game_unset :
  fst (run_game blind_env 1 world0) = Raise TypeError.
Proof. vm_compute. reflexivity. Qed.

(** ** Boards of the right shape *)

Lemma wf_board_inv (b : Board) :
  wf_board b →
  ∃ a0 a1 a2 b0 b1 b2 c0 c1 c2 : Z,
    b = [[a0; a1; a2]; [b0; b1; b2]; [c0; c1; c2]].
Proof.
  intros [Hlen Hrows].
  destruct b as [|r0 [|r1 [|r2 [|? ?]]]]; try discriminate.
  apply Forall_cons in Hrows as [H0 Hrows].
  apply Forall_cons in Hrows as [H1 Hrows].
  apply Forall_cons in Hrows as [H2 _].
  destruct r0 as [|a0 [|a1 [|a2 [|? ?]]]]; try discriminate.
  destruct r1 as [|b0 [|b1 [|b2 [|? ?]]]]; try discriminate.
  destruct r2 as [|c0 [|c1 [|c2 [|? ?]]]]; try discriminate.
  by exists a0, a1, a2, b0, b1, b2, c0, c1, c2.
Qed.

Lemma wf_board_grid (a0 a1 a2 b0 b1 b2 c0 c1 c2 : Z) :
  wf_board [[a0; a1; a2]; [b0; b1; b2]; [c0; c1; c2]].
Proof. split; [done | by repeat constructor]. Qed.

Lemma wf_empty_board : wf_board empty_board.
Proof. apply wf_board_grid. Qed.

Lemma lt_3_cases (n : nat) : n < 3 → n = 0 ∨ n = 1 ∨ n = 2.
Proof. lia. Qed.

(** Split a well-formed board into its nine cells. *)
Ltac grid b H :=
  let a0 := fresh "a0" in let a1 := fresh "a1" in let a2 := fresh "a2" in
  let b0 := fresh "b0" in let b1 := fresh "b1" in let b2 := fresh "b2" in
  let c0 := fresh "c0" in let c1 := fresh "c1" in let c2 := fresh "c2" in
  destruct (wf_board_inv b H)
    as (a0 & a1 & a2 & b0 & b1 & b2 & c0 & c1 & c2 & ->).

(** Split an index below 3 into 0, 1, 2. *)
Ltac index3 H :=
  apply lt_3_cases in H; destruct H as [-> | [-> | ->]].

Lemma board_get_wf (b : Board) (row col : nat) :
  wf_board b → row < 3 → col < 3 → ∃ v, board_get b row col = Ok v.
Proof.
  intros Hwf Hr Hc. grid b Hwf. index3 Hr; index3 Hc; cbn; eauto.
Qed.

Lemma board_set_wf (b : Board) (row col : nat) (v : Z) :
  wf_board b → row < 3 → col < 3 →
  ∃ b', board_set b row col v = Ok b' ∧ wf_board b'.
Proof.
  intros Hwf Hr Hc. grid b Hwf.
  index3 Hr; index3 Hc; cbn; eexists; (split; [done | apply wf_board_grid]).
Qed.

(** Writing a cell and then writing its old value back restores the grid. *)
Lemma board_set_undo (b b' : Board) (row col : nat) (v old : Z) :
  board_get b row col = Ok old →
  board_set b row col v = Ok b' →
  board_set b' row col old = Ok b.
Proof.
  unfold board_get, board_set. intros Hget Hset.
  destruct (b !! row) as [r|] eqn:Hrow; [|done].
  destruct (r !! col) as [x|] eqn:Hcol; [|done].
  assert (x = old) as -> by congruence.
  destruct (decide (col < length r)) as [Hlt|]; [|done].
  assert (b' = <[row := <[col := v]> r]> b) as -> by congruence.
  assert (row < length b) by (by eapply lookup_lt_Some).
  rewrite list_lookup_insert_eq by done.
  rewrite length_insert. rewrite decide_True by done.
  rewrite list_insert_insert_eq. f_equal.
  rewrite list_insert_insert_eq.
  rewrite (list_insert_id r col old) by done.
  by rewrite list_insert_id.
Qed.

(** ** The winning lines *)

Lemma line_fullb_spec (b : Board) (side : Z) (l : list (nat * nat)) :
  wf_board b →
  (∀ row col, (row, col) ∈ l → row < 3 ∧ col < 3) →
  line_fullb b side l = true ↔ line_full b side l.
Proof.
  intros Hwf Hin. unfold line_fullb, line_full.
  rewrite forallb_forall. split.
  - intros H row col Hl. specialize (H (row, col)).
    destruct (Hin _ _ Hl) as [Hr Hc].
    destruct (board_get_wf b row col Hwf Hr Hc) as [v Hv].
    unfold cell_isb in H; cbn in H. rewrite Hv in H. rewrite Hv.
    f_equal. apply Z.eqb_eq, H. by apply list_elem_of_In.
  - intros H [row col] Hl%list_elem_of_In. unfold cell_isb; cbn.
    rewrite (H _ _ Hl). apply Z.eqb_refl.
Qed.

Lemma win_lines_in_range (l : list (nat * nat)) (row col : nat) :
  l ∈ win_lines → (row, col) ∈ l → row < 3 ∧ col < 3.
Proof.
  unfold win_lines. intros Hl Hc.
  repeat (apply elem_of_cons in Hl as [-> | Hl];
          [ repeat (apply elem_of_cons in Hc as [[= -> ->] | Hc]; [lia|]);
            by apply elem_of_nil in Hc | ]).
  by apply elem_of_nil in Hl.
Qed.

(** What [check_win] computes on a 3x3 grid. *)
Lemma check_win_lines (b : Board) (player : Z) :
  wf_board b →
  check_win b player = Ok (existsb (line_fullb b player) win_lines).
Proof.
  intros Hwf. grid b Hwf.
  unfold check_win, line_fullb, cell_isb, win_lines. cbn.
  destruct (a0 =? player)%Z, (a1 =? player)%Z, (a2 =? player)%Z,
           (b0 =? player)%Z, (b1 =? player)%Z, (b2 =? player)%Z,
           (c0 =? player)%Z, (c1 =? player)%Z, (c2 =? player)%Z;
    reflexivity.
Qed.

(** ** C3: win detection *)

(** C3. For every 3x3 board and every side, [check_win] returns true exactly
    when one of the three rows, three columns or two diagonals holds that
    side in all its cells (and it returns false otherwise); on the empty
    board it returns false for the player and for the robot. *)
Theorem check_win_iff_line (b : Board) (side : Z) :
  wf_board b →
  (check_win b side = Ok true ↔ ∃ l, l ∈ win_lines ∧ line_full b side l)
  ∧ (check_win b side = Ok false ↔ ¬ ∃ l, l ∈ win_lines ∧ line_full b side l)
  ∧ check_win empty_board 1 = Ok false
  ∧ check_win empty_board 2 = Ok false.
Proof.
  intros Hwf.
  assert (existsb (line_fullb b side) win_lines = true
          ↔ ∃ l, l ∈ win_lines ∧ line_full b side l) as Hex.
  { rewrite existsb_exists. split.
    - intros (l & Hl%list_elem_of_In & Hfull). exists l. split; [done|].
      apply line_fullb_spec; eauto using win_lines_in_range.
    - intros (l & Hl & Hfull). exists l. split; [by apply list_elem_of_In|].
      apply line_fullb_spec; eauto using win_lines_in_range. }
  rewrite (check_win_lines b side Hwf).
  destruct (existsb (line_fullb b side) win_lines) eqn:E.
  - split; [|split; [|split; reflexivity]].
    + split; [intros _; by apply Hex | done].
    + split; [done | intros Hn; destruct Hn; by apply Hex].
  - split; [|split; [|split; reflexivity]].
    + split; [done | intros H%Hex; done].
    + split; [intros _ H%Hex; done | done].
Qed.

Lemma check_win_iff_line_witness :
  wf_board [[1; 2; 0]; [2; 1; 0]; [0; 0; 1]]%Z
  ∧ check_win [[1; 2; 0]; [2; 1; 0]; [0; 0; 1]]%Z 1 = Ok true.
Proof.
  split; [apply wf_board_grid|].
  apply (check_win_iff_line [[1; 2; 0]; [2; 1; 0]; [0; 0; 1]]%Z 1
           (wf_board_grid _ _ _ _ _ _ _ _ _)).
  exists [(0, 0); (1, 1); (2, 2)]. split.
  - unfold win_lines. by repeat constructor.
  - intros row col Hin.
    repeat (apply elem_of_cons in Hin as [[= -> ->] | Hin]; [reflexivity|]).
    by apply elem_of_nil in Hin.
Defined.

(** ** C8: draw detection *)

Lemma existsb_cell_zero (r : list Z) :
  existsb (λ x, x =? 0)%Z r = true ↔ ∃ col, r !! col = Some 0%Z.
Proof.
  rewrite existsb_exists. split.
  - intros (x & Hin & ->%Z.eqb_eq).
    by apply list_elem_of_In, list_elem_of_lookup in Hin.
  - intros [col Hcol]. exists 0%Z. split; [|done].
    apply list_elem_of_In, list_elem_of_lookup. eauto.
Qed.

Lemma board_has_empty (b : Board) :
  existsb (existsb (λ x, x =? 0)%Z) b = true
  ↔ ∃ row col, board_get b row col = Ok 0%Z.
Proof.
  rewrite existsb_exists. split.
  - intros (r & Hin & [col Hcol]%existsb_cell_zero).
    apply list_elem_of_In, list_elem_of_lookup in Hin as [row Hrow].
    exists row, col. unfold board_get. by rewrite Hrow, Hcol.
  - intros (row & col & Hget). unfold board_get in Hget.
    destruct (b !! row) as [r|] eqn:Hrow; [|done].
    destruct (r !! col) as [v|] eqn:Hcol; [|done].
    exists r. split.
    + apply list_elem_of_In, list_elem_of_lookup. eauto.
    + apply existsb_cell_zero. exists col. congruence.
Qed.

(** C8. For every board, [check_draw] returns true exactly when no cell is
    empty, so a board with an empty cell is never a draw; the function does
    not look at winners: a full board the player has won is reported as a
    draw as well. *)
Theorem check_draw_iff_full :
  (∀ b : Board,
     (check_draw b = true ↔ ∀ row col, board_get b row col ≠ Ok 0%Z)
     ∧ (∀ row col, board_get b row col = Ok 0%Z → check_draw b = false))
  ∧ (∃ b : Board,
       wf_board b ∧ check_draw b = true ∧ check_win b 1 = Ok true).
Proof.
  split.
  - intros b. unfold check_draw. split.
    + rewrite negb_true_iff, <- not_true_iff_false, board_has_empty.
      split.
      * intros Hn row col Hget. apply Hn. eauto.
      * intros Hall (row & col & Hget). by apply (Hall row col).
    + intros row col Hget. rewrite negb_false_iff.
      apply board_has_empty. eauto.
  - exists [[1; 1; 1]; [2; 2; 1]; [1; 2; 2]]%Z.
    split; [apply wf_board_grid | split; reflexivity].
Qed.

(** ** Reasoning in [M] *)

Lemma bind_ok {A B : Type} (m : M A) (f : A → M B) (w w' : World) (a : A) :
  m w = (Ok a, w') → (m ≫= f) w = f a w'.
Proof. intros H. unfold mbind, M_bind. by rewrite H. Qed.

Lemma set_board_same (w : World) : set_board (board w) w = w.
Proof. by destruct w. Qed.

Lemma set_board_twice (b b' : Board) (w : World) :
  set_board b (set_board b' w) = set_board b w.
Proof. done. Qed.

Lemma board_at_wf (w : World) (row col : nat) :
  wf_board (board w) → row < 3 → col < 3 →
  ∃ v, board_get (board w) row col = Ok v ∧ board_at row col w = (Ok v, w).
Proof.
  intros Hwf Hr Hc.
  destruct (board_get_wf _ _ _ Hwf Hr Hc) as [v Hv].
  exists v. split; [done|].
  unfold board_at, gets, lift, mbind, M_bind. by rewrite Hv.
Qed.

(** ** The look-ahead scans of [get_robot_move] *)

(** One trial placement: the answer, and the world is as it was. *)
Lemma try_cell_spec (mark : Z) (row col : nat) (w : World) :
  wf_board (board w) → row < 3 → col < 3 →
  try_cell mark row col w
  = (Ok (if wins_at (board w) mark (row, col) then Some (row, col) else None), w).
Proof.
  intros Hwf Hr Hc.
  destruct (board_at_wf w row col Hwf Hr Hc) as (v & Hv & Hat).
  destruct (board_set_wf (board w) row col mark Hwf Hr Hc) as (b' & Hset & Hwf').
  pose proof (board_set_undo _ _ _ _ _ _ Hv Hset) as Hundo.
  pose proof (check_win_lines b' mark Hwf') as Hwin.
  set (won := existsb _ _) in Hwin. clearbody won.
  unfold try_cell, wins_at. cbn [fst snd].
  rewrite (bind_ok _ _ _ _ _ Hat). rewrite Hv, Hset, Hwin.
  destruct (v =? 0)%Z eqn:Hz; [|done].
  apply Z.eqb_eq in Hz as ->.
  unfold board_store, gets, lift, modify, mbind, M_bind, mret, M_ret.
  cbn -[check_win].
  rewrite Hset. cbn -[check_win]. rewrite Hwin.
  destruct won; cbn; rewrite Hundo; by destruct w.
Qed.

(** A loop whose body only inspects the world leaves it as it was and
    returns the first answer. *)
Lemma for_each_pure {A R : Type} (xs : list A) (body : A → M (option R))
    (f : A → option R) (w : World) :
  (∀ x, x ∈ xs → body x w = (Ok (f x), w)) →
  for_each xs body w = (Ok (first_some f xs), w).
Proof.
  induction xs as [|x rest IH]; intros Hbody; [done|].
  cbn [for_each first_some].
  rewrite (bind_ok _ _ _ _ _ (Hbody x ltac:(left))).
  destruct (f x); [done|].
  apply IH. intros y Hy. apply Hbody. by right.
Qed.

(** A whole scan: the first cell, in row-major order, that wins for
    [mark]; the world is as it was. *)
Lemma scan_spec (mark : Z) (w : World) :
  wf_board (board w) →
  for_each (seq 0 3) (λ row, for_each (seq 0 3) (λ col, try_cell mark row col)) w
  = (Ok (find (wins_at (board w) mark) cells), w).
Proof.
  intros Hwf.
  set (pick := λ cell : nat * nat,
         if wins_at (board w) mark cell then Some cell else None).
  rewrite (for_each_pure _ _
             (λ row, first_some (λ col, pick (row, col)) (seq 0 3))).
  - f_equal. unfold pick, cells. cbn.
    repeat (destruct (wins_at _ _ _); [reflexivity|]). reflexivity.
  - intros row Hrow%elem_of_seq.
    apply for_each_pure. intros col Hcol%elem_of_seq.
    apply try_cell_spec; [done | lia | lia].
Qed.

(** ** The random tie-break *)

Lemma exchange_perm {A : Type} (x : list A) (i j : nat) : exchange x i j ≡ₚ x.
Proof.
  unfold exchange.
  destruct (x !! i) as [a|] eqn:Hi; [|done].
  destruct (x !! j) as [b|] eqn:Hj; [|done].
  by apply Permutation_insert_swap.
Qed.

Lemma set_draws_same (w : World) : set_draws (draws w) w = w.
Proof. by destruct w. Qed.

(** Shuffling permutes the list and only advances the random stream. *)
Lemma shuffle_down_spec {A : Type} (env : Env) (i : nat) (x : list A) (w : World) :
  ∃ x' n, shuffle_down env i x w = (Ok x', set_draws n w) ∧ x' ≡ₚ x.
Proof.
  revert x w. induction i as [|i IH]; intros x w.
  - exists x, (draws w). by rewrite set_draws_same.
  - cbn [shuffle_down]. unfold randbelow, gets, modify, mbind, M_bind, mret, M_ret.
    destruct (IH (exchange x (S i) (rnd env (draws w) `mod` (S i + 1)))
                 (set_draws (S (draws w)) w)) as (x' & n & Hrun & Hperm).
    exists x', n. rewrite Hrun. split; [done|].
    by rewrite Hperm, exchange_perm.
Qed.

Lemma shuffle_spec {A : Type} (env : Env) (x : list A) (w : World) :
  ∃ x' n, shuffle env x w = (Ok x', set_draws n w) ∧ x' ≡ₚ x.
Proof. apply shuffle_down_spec. Qed.

(** ** What [get_robot_move] returns *)

Lemma take_if_empty_spec (cell : nat * nat) (w : World) :
  wf_board (board w) → cell ∈ cells →
  take_if_empty cell w = (Ok (if_empty (board w) cell), w).
Proof.
  intros Hwf Hin. destruct cell as [row col].
  assert (row < 3 ∧ col < 3) as [Hr Hc].
  { unfold cells in Hin.
    repeat (apply elem_of_cons in Hin as [[= -> ->] | Hin]; [lia|]).
    by apply elem_of_nil in Hin. }
  destruct (board_at_wf w row col Hwf Hr Hc) as (v & Hv & Hat).
  unfold take_if_empty, if_empty, cell_isb. cbn [fst snd].
  rewrite (bind_ok _ _ _ _ _ Hat), Hv. by destruct (v =? 0)%Z.
Qed.

Lemma corner_cells_in (cell : nat * nat) : cell ∈ corner_cells → cell ∈ cells.
Proof.
  unfold corner_cells, cells. intros H.
  repeat (apply elem_of_cons in H as [-> | H]; [by repeat constructor|]).
  by apply elem_of_nil in H.
Qed.

Lemma edge_cells_in (cell : nat * nat) : cell ∈ edge_cells → cell ∈ cells.
Proof.
  unfold edge_cells, cells. intros H.
  repeat (apply elem_of_cons in H as [-> | H]; [by repeat constructor|]).
  by apply elem_of_nil in H.
Qed.

Lemma set_draws_twice (n m : nat) (w : World) :
  set_draws n (set_draws m w) = set_draws n w.
Proof. done. Qed.

(** [get_robot_move] never fails on a 3x3 board, returns what the five
    tiers give for some orders of the corners and of the edges, and changes
    nothing in the world but the position in the random stream. *)
Lemma get_robot_move_spec (env : Env) (w : World) :
  wf_board (board w) →
  ∃ corners edges n,
    corners ≡ₚ corner_cells ∧ edges ≡ₚ edge_cells
    ∧ get_robot_move env w = (Ok (choose (board w) corners edges), set_draws n w).
Proof.
  intros Hwf. unfold get_robot_move, choose.
  rewrite (bind_ok _ _ _ _ _ (scan_spec 2 w Hwf)).
  destruct (find (wins_at (board w) 2) cells) as [mv|].
  { exists corner_cells, edge_cells, (draws w).
    by rewrite set_draws_same. }
  rewrite (bind_ok _ _ _ _ _ (scan_spec 1 w Hwf)).
  destruct (find (wins_at (board w) 1) cells) as [mv|].
  { exists corner_cells, edge_cells, (draws w).
    by rewrite set_draws_same. }
  destruct (board_at_wf w 1 1 Hwf) as (c & Hc & Hat); [lia | lia |].
  rewrite (bind_ok _ _ _ _ _ Hat).
  unfold cell_isb. cbn [fst snd]. rewrite Hc.
  destruct (c =? 0)%Z.
  { exists corner_cells, edge_cells, (draws w).
    by rewrite set_draws_same. }
  destruct (shuffle_spec env corner_cells w) as (corners & n & Hsh & Hperm).
  fold corner_cells. rewrite (bind_ok _ _ _ _ _ Hsh).
  rewrite (bind_ok _ _ (set_draws n w) (set_draws n w)
             (first_some (if_empty (board w)) corners)).
  2:{ apply (for_each_pure _ _ (if_empty (board w))).
      intros cell Hin.
      apply (take_if_empty_spec cell (set_draws n w)); [done|].
      apply corner_cells_in. by rewrite <- Hperm. }
  destruct (first_some (if_empty (board w)) corners) as [mv|] eqn:Hcor.
  { exists corners, edge_cells, n. rewrite Hcor.
    split; [done | split; [done | reflexivity]]. }
  destruct (shuffle_spec env edge_cells (set_draws n w))
    as (edges & n' & Hsh' & Hperm').
  fold edge_cells. rewrite (bind_ok _ _ _ _ _ Hsh').
  rewrite set_draws_twice.
  rewrite (bind_ok _ _ (set_draws n' w) (set_draws n' w)
             (first_some (if_empty (board w)) edges)).
  2:{ apply (for_each_pure _ _ (if_empty (board w))).
      intros cell Hin.
      apply (take_if_empty_spec cell (set_draws n' w)); [done|].
      apply edge_cells_in. by rewrite <- Hperm'. }
  exists corners, edges, n'. rewrite Hcor. split; [done | split; [done|]].
  by destruct (first_some (if_empty (board w)) edges).
Qed.

(** ** Facts about the tiers *)

Lemma cell_isb_true (b : Board) (v : Z) (row col : nat) :
  cell_isb b v (row, col) = true ↔ board_get b row col = Ok v.
Proof.
  unfold cell_isb. cbn [fst snd]. destruct (board_get b row col) as [x| |].
  - rewrite Z.eqb_eq. split; congruence.
  - split; discriminate.
  - split; discriminate.
Qed.

Lemma cells_range (row col : nat) : (row, col) ∈ cells ↔ row < 3 ∧ col < 3.
Proof.
  unfold cells. split.
  - intros H.
    repeat (apply elem_of_cons in H as [[= -> ->] | H]; [lia|]).
    by apply elem_of_nil in H.
  - intros [Hr Hc]. index3 Hr; index3 Hc; by repeat constructor.
Qed.

Lemma board_get_range (b : Board) (row col : nat) (v : Z) :
  wf_board b → board_get b row col = Ok v → row < 3 ∧ col < 3.
Proof.
  intros [Hlen Hrows] Hget. unfold board_get in Hget.
  destruct (b !! row) as [r|] eqn:Hrow; [|done].
  destruct (r !! col) as [x|] eqn:Hcol; [|done].
  apply lookup_lt_Some in Hcol.
  rewrite Forall_forall in Hrows.
  rewrite (Hrows r) in Hcol by (by eapply list_elem_of_lookup_2).
  apply lookup_lt_Some in Hrow. lia.
Qed.

Lemma wins_at_empty (b : Board) (mark : Z) (row col : nat) :
  wins_at b mark (row, col) = true → board_get b row col = Ok 0%Z.
Proof.
  unfold wins_at. cbn [fst snd].
  destruct (board_get b row col) as [v| |]; [|done|done].
  intros [->%Z.eqb_eq _]%andb_true_iff. done.
Qed.

Lemma find_wins_at (b : Board) (mark : Z) (row col : nat) :
  find (wins_at b mark) cells = Some (row, col) →
  row < 3 ∧ col < 3 ∧ board_get b row col = Ok 0%Z.
Proof.
  intros [Hin Hwin]%find_some.
  apply list_elem_of_In, cells_range in Hin as [Hr Hc].
  eauto using wins_at_empty.
Qed.

Lemma first_some_if_empty (b : Board) (l : list (nat * nat)) (row col : nat) :
  first_some (if_empty b) l = Some (row, col) →
  (row, col) ∈ l ∧ board_get b row col = Ok 0%Z.
Proof.
  induction l as [|cell l IH]; [done|]. cbn [first_some].
  unfold if_empty at 1. destruct (cell_isb b 0 cell) eqn:Hcell.
  - intros [= ->]. split; [by left | by apply cell_isb_true].
  - intros [Hin Hget]%IH. split; [by right | done].
Qed.

Lemma first_some_if_empty_None (b : Board) (l : list (nat * nat)) (row col : nat) :
  first_some (if_empty b) l = None →
  (row, col) ∈ l → board_get b row col ≠ Ok 0%Z.
Proof.
  induction l as [|cell l IH]; intros Hnone Hin.
  - by apply elem_of_nil in Hin.
  - cbn [first_some] in Hnone. unfold if_empty at 1 in Hnone.
    destruct (cell_isb b 0 cell) eqn:Hcell; [done|].
    apply elem_of_cons in Hin as [<- | Hin]; [|by apply IH].
    intros Hget%cell_isb_true. congruence.
Qed.

(** Centre, corners and edges are the whole grid. *)
Lemma cells_cover (row col : nat) :
  row < 3 → col < 3 →
  (row, col) = (1, 1) ∨ (row, col) ∈ corner_cells ∨ (row, col) ∈ edge_cells.
Proof.
  intros Hr Hc. unfold corner_cells, edge_cells.
  index3 Hr; index3 Hc;
    first [ by left
          | right; left; by repeat constructor
          | right; right; by repeat constructor ].
Qed.

(** What a chosen cell is, and what no choice means. *)
Lemma choose_sound (b : Board) (corners edges : list (nat * nat)) :
  wf_board b → corners ≡ₚ corner_cells → edges ≡ₚ edge_cells →
  match choose b corners edges with
  | Some (row, col) => row < 3 ∧ col < 3 ∧ board_get b row col = Ok 0%Z
  | None => ∀ row col, board_get b row col ≠ Ok 0%Z
  end.
Proof.
  intros Hwf Hcor Hedg. unfold choose.
  destruct (find (wins_at b 2) cells) as [[row col]|] eqn:H2.
  { by apply find_wins_at in H2. }
  destruct (find (wins_at b 1) cells) as [[row col]|] eqn:H1.
  { by apply find_wins_at in H1. }
  destruct (cell_isb b 0 (1, 1)) eqn:Hmid.
  { apply cell_isb_true in Hmid. split; [lia | split; [lia | done]]. }
  destruct (first_some (if_empty b) corners) as [[row col]|] eqn:Hc.
  { apply first_some_if_empty in Hc as [Hin Hget].
    rewrite Hcor in Hin. apply corner_cells_in, cells_range in Hin.
    tauto. }
  destruct (first_some (if_empty b) edges) as [[row col]|] eqn:He.
  { apply first_some_if_empty in He as [Hin Hget].
    rewrite Hedg in Hin. apply edge_cells_in, cells_range in Hin.
    tauto. }
  intros row col Hget.
  destruct (board_get_range b row col 0 Hwf Hget) as [Hr Hcl].
  destruct (cells_cover row col Hr Hcl) as [[= -> ->] | [Hin | Hin]].
  - apply cell_isb_true in Hget. congruence.
  - rewrite <- Hcor in Hin.
    by apply (first_some_if_empty_None b corners row col Hc Hin).
  - rewrite <- Hedg in Hin.
    by apply (first_some_if_empty_None b edges row col He Hin).
Qed.

(** ** C2: the look-ahead leaves the board as it was *)

(** C2. For every 3x3 board, [get_robot_move] returns normally and the board
    after the call is the board before the call: every trial placement of
    the two look-ahead scans has been taken back. *)
Theorem get_robot_move_preserves_board (env : Env) (w : World) :
  wf_board (board w) →
  ∃ mv w', get_robot_move env w = (Ok mv, w') ∧ board w' = board w.
Proof.
  intros Hwf.
  destruct (get_robot_move_spec env w Hwf) as (corners & edges & n & _ & _ & Hrun).
  eauto.
Qed.

Lemma get_robot_move_preserves_board_witness :
  wf_board (board (world_with [[1; 0; 0]; [0; 2; 0]; [0; 0; 1]]%Z))
  ∧ ∃ mv w',
      get_robot_move blind_env (world_with [[1; 0; 0]; [0; 2; 0]; [0; 0; 1]]%Z)
      = (Ok mv, w')
      ∧ board w' = board (world_with [[1; 0; 0]; [0; 2; 0]; [0; 0; 1]]%Z).
Proof.
  split; [apply wf_board_grid|].
  apply (get_robot_move_preserves_board blind_env
           (world_with [[1; 0; 0]; [0; 2; 0]; [0; 0; 1]]%Z)).
  apply wf_board_grid.
Defined.

(** ** C5: the move is an empty cell of the grid *)

(** C5. On every 3x3 board [get_robot_move] returns normally; a returned
    coordinate has row and column in 0..2 and names an empty cell, and
    [None] is returned only when no cell is empty; so on a board with an
    empty cell a coordinate is returned. *)
Theorem get_robot_move_in_empty_cell (env : Env) (w : World) :
  wf_board (board w) →
  ∃ mv w',
    get_robot_move env w = (Ok mv, w')
    ∧ match mv with
      | Some (row, col) =>
          row ≤ 2 ∧ col ≤ 2 ∧ board_get (board w) row col = Ok 0%Z
      | None => ∀ row col, board_get (board w) row col ≠ Ok 0%Z
      end
    ∧ ((∃ row col, board_get (board w) row col = Ok 0%Z) → is_Some mv).
Proof.
  intros Hwf.
  destruct (get_robot_move_spec env w Hwf)
    as (corners & edges & n & Hcor & Hedg & Hrun).
  pose proof (choose_sound (board w) corners edges Hwf Hcor Hedg) as Hsound.
  exists (choose (board w) corners edges), (set_draws n w).
  split; [done|].
  destruct (choose (board w) corners edges) as [[row col]|].
  - split; [|by eauto]. destruct Hsound as (? & ? & ?).
    split; [lia | split; [lia | done]].
  - split; [done|]. intros (row & col & Hget). by destruct (Hsound row col).
Qed.

Lemma get_robot_move_in_empty_cell_witness :
  wf_board (board (world_with [[2; 1; 2]; [1; 2; 1]; [0; 0; 0]]%Z))
  ∧ ∃ mv w',
      get_robot_move blind_env (world_with [[2; 1; 2]; [1; 2; 1]; [0; 0; 0]]%Z)
      = (Ok mv, w')
      ∧ match mv with
        | Some (row, col) =>
            row ≤ 2 ∧ col ≤ 2
            ∧ board_get (board (world_with [[2; 1; 2]; [1; 2; 1]; [0; 0; 0]]%Z))
                row col = Ok 0%Z
        | None =>
            ∀ row col,
              board_get (board (world_with [[2; 1; 2]; [1; 2; 1]; [0; 0; 0]]%Z))
                row col ≠ Ok 0%Z
        end
      ∧ ((∃ row col,
            board_get (board (world_with [[2; 1; 2]; [1; 2; 1]; [0; 0; 0]]%Z))
              row col = Ok 0%Z) → is_Some mv).
Proof.
  split; [apply wf_board_grid|].
  apply (get_robot_move_in_empty_cell blind_env
           (world_with [[2; 1; 2]; [1; 2; 1]; [0; 0; 0]]%Z)).
  apply wf_board_grid.
Defined.

(** ** C4: an immediate win is taken, first cell first *)

Lemma wins_at_iff (b : Board) (mark : Z) (row col : nat) :
  wins_at b mark (row, col) = true ↔ wins_by_placing b mark row col.
Proof.
  unfold wins_at, wins_by_placing. cbn [fst snd]. split.
  - destruct (board_get b row col) as [v| |]; [|done|done].
    intros [->%Z.eqb_eq Hw]%andb_true_iff. split; [done|].
    destruct (board_set b row col mark) as [b'| |]; [|done|done].
    exists b'. split; [done|].
    destruct (check_win b' mark) as [won| |]; [|done|done]. by rewrite Hw.
  - intros (-> & b' & -> & ->). done.
Qed.

(** [find] over the nine cells stops at the first hit in row-major order. *)
Lemma find_cells_first (p : nat * nat → bool) (row col : nat) :
  find p cells = Some (row, col) →
  p (row, col) = true
  ∧ ∀ r c, r < 3 → c < 3 → row_major_before (r, c) (row, col) → p (r, c) = false.
Proof.
  intros Hfind. split; [by apply find_some in Hfind as [_ ?]|].
  intros r c Hr Hc. unfold row_major_before. cbn [fst snd].
  unfold cells in Hfind. cbn [find] in Hfind.
  repeat match type of Hfind with
         | (if p ?x then _ else _) = _ =>
             let E := fresh "E" in destruct (p x) eqn:E
         end;
    try discriminate;
    injection Hfind as <- <-; intros Hlt;
    index3 Hr; index3 Hc; first [ assumption | exfalso; lia ].
Qed.

(** C4. On every 3x3 board with an empty cell where a robot mark completes
    a line, [get_robot_move] returns such a cell, namely the first one in
    row-major order, and changes nothing; on [[2,0,0],[0,2,0],[0,0,0]] it
    returns (2,2), which completes the main diagonal. *)
Theorem get_robot_move_takes_first_win (env : Env) (w : World) :
  wf_board (board w) →
  (∃ r c, wins_by_placing (board w) 2 r c) →
  (∃ row col,
     get_robot_move env w = (Ok (Some (row, col)), w)
     ∧ wins_by_placing (board w) 2 row col
     ∧ ∀ r c, row_major_before (r, c) (row, col) →
              ¬ wins_by_placing (board w) 2 r c)
  ∧ get_robot_move env (world_with [[2; 0; 0]; [0; 2; 0]; [0; 0; 0]]%Z)
    = (Ok (Some (2, 2)), world_with [[2; 0; 0]; [0; 2; 0]; [0; 0; 0]]%Z)
  ∧ line_full [[2; 0; 0]; [0; 2; 0]; [0; 0; 2]]%Z 2 [(0, 0); (1, 1); (2, 2)].
Proof.
  intros Hwf (r0 & c0 & Hwin0). split; [|split].
  - destruct (find (wins_at (board w) 2) cells) as [[row col]|] eqn:Hfind.
    + exists row, col.
      destruct (find_cells_first _ _ _ Hfind) as [Hhit Hfirst].
      split; [|split].
      * unfold get_robot_move.
        rewrite (bind_ok _ _ _ _ _ (scan_spec 2 w Hwf)). by rewrite Hfind.
      * by apply wins_at_iff.
      * intros r c Hbefore Hwin.
        destruct (board_get_range _ _ _ _ Hwf (proj1 Hwin)) as [Hr Hc].
        apply wins_at_iff in Hwin. rewrite (Hfirst r c Hr Hc Hbefore) in Hwin.
        discriminate.
    + exfalso.
      destruct (board_get_range _ _ _ _ Hwf (proj1 Hwin0)) as [Hr Hc].
      apply wins_at_iff in Hwin0.
      rewrite (find_none _ _ Hfind (r0, c0)) in Hwin0; [discriminate|].
      by apply list_elem_of_In, cells_range.
  - unfold get_robot_move.
    rewrite (bind_ok _ _ _ _ _
               (scan_spec 2 (world_with [[2; 0; 0]; [0; 2; 0]; [0; 0; 0]]%Z)
                  (wf_board_grid _ _ _ _ _ _ _ _ _))).
    reflexivity.
  - intros row col Hin.
    repeat (apply elem_of_cons in Hin as [[= -> ->] | Hin]; [reflexivity|]).
    by apply elem_of_nil in Hin.
Qed.

Lemma get_robot_move_takes_first_win_witness :
  ∃ row col,
    get_robot_move blind_env (world_with [[2; 2; 0]; [1; 1; 0]; [2; 0; 2]]%Z)
    = (Ok (Some (row, col)), world_with [[2; 2; 0]; [1; 1; 0]; [2; 0; 2]]%Z)
    ∧ (row, col) = (0, 2).
Proof.
  destruct (get_robot_move_takes_first_win blind_env
              (world_with [[2; 2; 0]; [1; 1; 0]; [2; 0; 2]]%Z)
              (wf_board_grid _ _ _ _ _ _ _ _ _)) as [(row & col & Hrun & _) _].
  - exists 2, 1. split; [reflexivity|]. eexists. split; reflexivity.
  - exists row, col. split; [exact Hrun|].
    assert (get_robot_move blind_env
              (world_with [[2; 2; 0]; [1; 1; 0]; [2; 0; 2]]%Z)
            = (Ok (Some (0, 2)), world_with [[2; 2; 0]; [1; 1; 0]; [2; 0; 2]]%Z))
      as Hcomp by (vm_compute; reflexivity).
    congruence.
Defined.

(** ** C1: the scenario of the spec, where the win comes before the block *)

(** C1 as the spec states it fails: on [[1,1,0],[2,2,0],[0,0,0]] the
    answer is not the blocking cell (0,2). *)
Lemma get_robot_move_scenario_not_block :
  fst (get_robot_move blind_env (world_with [[1; 1; 0]; [2; 2; 0]; [0; 0; 0]]%Z))
  ≠ Ok (Some (0, 2)).
Proof. vm_compute. discriminate. Qed.

(** C1 (amended). On [[1,1,0],[2,2,0],[0,0,0]] [get_robot_move] returns
    (1,2): the robot completes its own row 1, since the scan for a winning
    cell runs before the scan for a cell to block; the board is unchanged.
    Where the robot has no winning cell, as on [[1,1,0],[0,2,0],[0,0,0]],
    it blocks row 0 at (0,2). *)
Theorem get_robot_move_scenario_wins_row1 (env : Env) (w : World) :
  get_robot_move env (set_board [[1; 1; 0]; [2; 2; 0]; [0; 0; 0]]%Z w)
  = (Ok (Some (1, 2)), set_board [[1; 1; 0]; [2; 2; 0]; [0; 0; 0]]%Z w)
  ∧ check_win [[1; 1; 0]; [2; 2; 2]; [0; 0; 0]]%Z 2 = Ok true
  ∧ get_robot_move env (set_board [[1; 1; 0]; [0; 2; 0]; [0; 0; 0]]%Z w)
    = (Ok (Some (0, 2)), set_board [[1; 1; 0]; [0; 2; 0]; [0; 0; 0]]%Z w).
Proof.
  split; [|split; [reflexivity|]].
  - unfold get_robot_move.
    rewrite (bind_ok _ _ _ _ _
               (scan_spec 2 (set_board [[1; 1; 0]; [2; 2; 0]; [0; 0; 0]]%Z w)
                  (wf_board_grid _ _ _ _ _ _ _ _ _))).
    reflexivity.
  - unfold get_robot_move.
    rewrite (bind_ok _ _ _ _ _
               (scan_spec 2 (set_board [[1; 1; 0]; [0; 2; 0]; [0; 0; 0]]%Z w)
                  (wf_board_grid _ _ _ _ _ _ _ _ _))).
    change (find _ cells) with (@None (nat * nat)). cbv iota.
    rewrite (bind_ok _ _ _ _ _
               (scan_spec 1 (set_board [[1; 1; 0]; [0; 2; 0]; [0; 0; 0]]%Z w)
                  (wf_board_grid _ _ _ _ _ _ _ _ _))).
    reflexivity.
Qed.

(** ** C6: the piece inventory *)

Lemma first_unused_prefix (i k : nat) (rest : list bool) :
  first_unused i (replicate k true ++ false :: rest) = Some (i + k).
Proof.
  revert i. induction k as [|k IH]; intros i; cbn.
  - f_equal. lia.
  - rewrite IH. f_equal. lia.
Qed.

Lemma first_unused_all_used (i k : nat) :
  first_unused i (replicate k true) = None.
Proof. revert i. induction k as [|k IH]; intros i; cbn; [done | apply IH]. Qed.

Lemma insert_after_prefix (k : nat) (rest : list bool) :
  <[k := true]> (replicate k true ++ false :: rest)
  = replicate (S k) true ++ rest.
Proof. induction k as [|k IH]; [done | exact (f_equal (cons true) IH)]. Qed.

Lemma blocks_of_set_blocks (side : bool) (l : list bool) (w : World) :
  blocks_of side (set_blocks side l w) = l.
Proof. by destruct side. Qed.

Lemma set_blocks_twice (side : bool) (l l' : list bool) (w : World) :
  set_blocks side l (set_blocks side l' w) = set_blocks side l w.
Proof. by destruct side. Qed.

Lemma set_blocks_same (side : bool) (w : World) :
  set_blocks side (blocks_of side w) w = w.
Proof. by destruct side, w. Qed.

Lemma blocks_of_other (side : bool) (l : list bool) (w : World) :
  blocks_of (negb side) (set_blocks side l w) = blocks_of (negb side) w.
Proof. by destruct side. Qed.

(** One allocation when the first [k] blocks are used and the next is not. *)
Lemma allocate_next (side : bool) (w : World) (k : nat) (rest : list bool) :
  blocks_of side w = replicate k true ++ false :: rest →
  get_next_available_block side w
  = (Ok (Some (k + 1)), set_blocks side (replicate (S k) true ++ rest) w).
Proof.
  intros Hb. unfold get_next_available_block, gets, modify, mbind, M_bind, mret, M_ret.
  rewrite Hb, first_unused_prefix. cbn [Nat.add].
  by rewrite insert_after_prefix.
Qed.

(** One allocation when every block is used. *)
Lemma allocate_exhausted (side : bool) (w : World) :
  Forall (λ used, used = true) (blocks_of side w) →
  get_next_available_block side w
  = (Ok None, set_log (log w ++ [Printed WarnNoMoreBlocks]) w).
Proof.
  intros Hall. unfold get_next_available_block, gets, mbind, M_bind.
  assert (blocks_of side w = replicate (length (blocks_of side w)) true) as ->.
  { induction Hall as [|used l -> _ IH]; cbn; [done | by rewrite <- IH]. }
  by rewrite first_unused_all_used.
Qed.

Lemma allocate_times_spec (side : bool) (m k : nat) (w : World) :
  blocks_of side w = replicate k true ++ replicate m false →
  allocate_times m side w
  = (Ok (Some <$> seq (k + 1) m), set_blocks side (replicate (k + m) true) w).
Proof.
  revert k w. induction m as [|m IH]; intros k w Hb.
  - cbn. rewrite app_nil_r in Hb. rewrite Nat.add_0_r, <- Hb.
    by rewrite set_blocks_same.
  - cbn [allocate_times replicate] in *.
    rewrite (bind_ok _ _ _ _ _ (allocate_next side w k _ Hb)).
    rewrite (bind_ok _ _ _ _ _ (IH (S k) _ (blocks_of_set_blocks _ _ _))).
    rewrite set_blocks_twice. cbn [seq fmap list_fmap].
    unfold mret, M_ret.
    replace (S k + 1) with (S (k + 1)) by lia.
    by replace (k + S m) with (S k + m) by lia.
Qed.

(** A call never gives a block back, and never touches the other side. *)
Lemma allocate_monotone (side : bool) (w w' : World) (r : Res (option nat)) :
  get_next_available_block side w = (r, w') →
  (∀ i, blocks_of side w !! i = Some true → blocks_of side w' !! i = Some true)
  ∧ blocks_of (negb side) w' = blocks_of (negb side) w.
Proof.
  unfold get_next_available_block, gets, modify, say, mbind, M_bind, mret, M_ret.
  destruct (first_unused 0 (blocks_of side w)) as [j|]; intros [= <- <-].
  - rewrite blocks_of_set_blocks, blocks_of_other. split; [|done].
    intros i Hi. destruct (decide (j = i)) as [->|Hne].
    + apply list_lookup_insert_eq. by eapply lookup_lt_Some.
    + by rewrite list_lookup_insert_ne.
  - split; [|by destruct side]. intros i Hi. by destruct side.
Qed.

(** C6. From an inventory of [N] unused blocks of one side, [N] successive
    calls of [get_next_available_block] return the identifiers 1, 2, ..., N
    in that order (each exactly once) and leave every block used; the next
    call returns [None] and leaves them used; and whatever the state, a call
    never turns a used block back to unused nor touches the other side. *)
Theorem allocate_each_once (N : nat) (side : bool) (w : World) :
  blocks_of side w = replicate N false →
  ∃ w',
    allocate_times N side w = (Ok (Some <$> seq 1 N), w')
    ∧ NoDup (seq 1 N)
    ∧ blocks_of side w' = replicate N true
    ∧ (∃ w'', get_next_available_block side w' = (Ok None, w'')
              ∧ blocks_of side w'' = replicate N true)
    ∧ (∀ (any w1 : World) (r : Res (option nat)) (i : nat),
         get_next_available_block side any = (r, w1) →
         blocks_of side any !! i = Some true →
         blocks_of side w1 !! i = Some true).
Proof.
  intros Hb.
  exists (set_blocks side (replicate N true) w).
  split; [|split; [|split; [|split]]].
  - by apply (allocate_times_spec side N 0 w).
  - apply NoDup_seq.
  - apply blocks_of_set_blocks.
  - eexists. split.
    + apply allocate_exhausted. rewrite blocks_of_set_blocks.
      by apply Forall_replicate.
    + by destruct side.
  - intros any w1 r i Hcall. by apply (allocate_monotone side any w1 r).
Qed.

Lemma allocate_each_once_witness :
  ∃ w',
    allocate_times 5 true world0 = (Ok (Some <$> seq 1 5), w')
    ∧ NoDup (seq 1 5)
    ∧ blocks_of true w' = replicate 5 true
    ∧ (∃ w'', get_next_available_block true w' = (Ok None, w'')
              ∧ blocks_of true w'' = replicate 5 true)
    ∧ (∀ (any w1 : World) (r : Res (option nat)) (i : nat),
         get_next_available_block true any = (r, w1) →
         blocks_of true any !! i = Some true →
         blocks_of true w1 !! i = Some true).
Proof. apply (allocate_each_once 5 true world0). reflexivity. Defined.

(** ** C9: a move commands every joint to its target *)












Lemma bind_raise {A B : Type} (m : M A) (f : A → M B) (w w' : World) (e : exn) :
  m w = (Raise e, w') → (m ≫= f) w = (Raise e, w').
Proof. intros H. unfold mbind, M_bind. by rewrite H. Qed.



Lemma say_run (m : msg) (w : World) :
  say m w = (Ok tt, set_log (log w ++ [Printed m]) w).
Proof. reflexivity. Qed.

Lemma sleep_run (ms : Z) (w : World) :
  sleep ms w = (Ok tt, set_clock (clock w + ms) w).
Proof. reflexivity. Qed.

(** *** One command *)





(** *** The interpolation loop *)




(** *** One joint *)

(** [move_servo_smoothly] by its starting angle. *)
Lemma move_servo_smoothly_unfold (env : Env) (n : nat) (target : Qc)
    (current : option Qc) (steps : nat) (delay : Z) (w : World) :
  move_servo_smoothly env n target current steps delay w
  = match start_angle env n target current w with
    | None => (Raise TypeError, w)
    | Some cur =>
        if decide (steps = 0) then (Raise ZeroDivisionError, w)
        else for_do (seq 0 steps)
               (λ step, servo_write env n (step_angle cur target steps step);;
                        sleep delay) w
    end.
Proof.
  unfold move_servo_smoothly, start_angle.
  destruct current as [a|].
  - rewrite (bind_ok _ _ w w a) by reflexivity.
    by destruct (decide (steps = 0)).
  - destruct (kit_angle env n (servo w !! n)) as [e| |a] eqn:Hread.
    + rewrite (bind_ok _ _ w w target).
      * by destruct (decide (steps = 0)).
      * rewrite (bind_ok _ _ w w (Fails e)); [reflexivity|].
        unfold servo_read, gets. by rewrite Hread.
    + apply bind_raise.
      rewrite (bind_ok _ _ w w NoAngle); [reflexivity|].
      unfold servo_read, gets. by rewrite Hread.
    + rewrite (bind_ok _ _ w w a).
      * by destruct (decide (steps = 0)).
      * rewrite (bind_ok _ _ w w (Angle a)); [reflexivity|].
        unfold servo_read, gets. by rewrite Hread.
Qed.





(** *** The whole arm *)





(** *** A driver with a range check *)




(** ** C7: no player move before the timeout *)

Lemma quiet_refl (w : World) : quiet w w.
Proof.
  repeat (split; [done|]). exists []. by rewrite app_nil_r.
Qed.

Lemma quiet_trans (w1 w2 w3 : World) : quiet w1 w2 → quiet w2 w3 → quiet w1 w3.
Proof.
  intros (S1 & B1 & R1 & D1 & A1 & e1 & L1 & F1)
         (S2 & B2 & R2 & D2 & A2 & e2 & L2 & F2).
  unfold quiet. rewrite S2, B2, R2, D2, A2.
  repeat (split; [done|]). exists (e1 ++ e2).
  split; [by rewrite L2, L1, app_assoc | by apply Forall_app].
Qed.

Lemma quiet_say (m : msg) (w : World) :
  waiting_only (Printed m) = true → quiet w (set_log (log w ++ [Printed m]) w).
Proof.
  intros Hm. repeat (split; [done|]). exists [Printed m]. split; [done|].
  by constructor.
Qed.

Lemma first_some_none {A R : Type} (xs : list A) :
  first_some (λ _ : A, @None R) xs = None.
Proof. by induction xs. Qed.

Section Waiting.
Context (env : Env).

Lemma analyze_board_state_run (w : World) :
  analyze_board_state env w
  = let w1 := set_clock (clock w + Z.of_nat (latency env (polls w)))
                (set_polls (S (polls w)) w) in
    match perceive env (polls w) with
    | Some b => (Ok true, set_board b w1)
    | None => (Ok false, set_log (log w1 ++ [Printed AnalyzeFailed]) w1)
    end.
Proof.
  unfold analyze_board_state, gets, modify, sleep, say, mbind, M_bind,
    mret, M_ret. cbn.
  by destruct (perceive env (polls w)).
Qed.

(** One poll that shows no new player mark: no move is reported and the
    robot has done nothing. *)
Lemma detect_player_move_none (prev : Board) (w : World) :
  wf_board prev →
  (∀ b', perceive env (polls w) = Some b' →
         wf_board b' ∧ no_new_player_mark prev b') →
  ∃ w',
    detect_player_move env prev w = (Ok None, w')
    ∧ quiet w w'
    ∧ polls w' = S (polls w)
    ∧ (clock w ≤ clock w')%Z.
Proof.
  intros Hprev Hsee. unfold detect_player_move.
  pose proof (analyze_board_state_run w) as Hrun. cbn zeta in Hrun.
  destruct (perceive env (polls w)) as [b'|] eqn:Hper.
  - destruct (Hsee b' eq_refl) as [Hwf' Hno].
    rewrite (bind_ok _ _ _ _ _ Hrun). cbn [negb].
    set (w2 := set_board b' _) in *.
    rewrite (bind_ok _ _ w2 w2 None).
    + eexists. split; [by rewrite (bind_ok _ _ _ _ _ (say_run _ _))|].
      split; [|split].
      * apply (quiet_trans _ w2); [|by apply quiet_say].
        repeat (split; [done|]). exists []. by rewrite app_nil_r.
      * done.
      * cbn. lia.
    + rewrite (for_each_pure _ _ (λ _, None)); [by rewrite first_some_none|].
      intros row Hrow%elem_of_seq.
      rewrite (for_each_pure _ _ (λ _, None)); [by rewrite first_some_none|].
      intros col Hcol%elem_of_seq.
      destruct (board_get_wf prev row col Hprev) as [p Hp]; [lia | lia |].
      unfold lift at 1, mbind at 1, M_bind at 1. rewrite Hp.
      destruct (p =? 0)%Z eqn:Hz; [|done].
      apply Z.eqb_eq in Hz as ->.
      destruct (board_at_wf w2 row col Hwf') as (c & Hc & Hat); [lia | lia |].
      rewrite (bind_ok _ _ _ _ _ Hat).
      destruct (c =? 1)%Z eqn:H1; [|done].
      apply Z.eqb_eq in H1 as ->. by destruct (Hno row col).
  - rewrite (bind_ok _ _ _ _ _ Hrun). cbn [negb].
    eexists. split; [by rewrite (bind_ok _ _ _ _ _ (say_run _ _))|].
    split; [|split].
    + repeat (split; [done|]).
      exists [Printed AnalyzeFailed; Printed DetectFailed]. split.
      * cbn. by rewrite <- app_assoc.
      * by repeat constructor.
    + done.
    + cbn. lia.
Qed.

(** The polling loop runs out of time, not of fuel, when each of the at most
    [n] polls that fit in the timeout shows no new player mark. *)
Lemma wait_loop_timeout (n fuel : nat) (prev : Board)
    (start timeout interval : Z) (w : World) :
  wf_board prev →
  (0 < interval)%Z →
  n ≤ fuel →
  (timeout - (clock w - start) ≤ interval * Z.of_nat n)%Z →
  (∀ k b', polls w ≤ k < polls w + n → perceive env k = Some b' →
           wf_board b' ∧ no_new_player_mark prev b') →
  ∃ w',
    wait_loop env fuel prev start timeout interval w = (Ok None, w')
    ∧ quiet w w'.
Proof.
  intros Hprev Hint. revert fuel w.
  induction n as [|n IH]; intros fuel w Hle Hfuel Hsee.
  - destruct fuel; cbn [wait_loop];
      unfold gets at 1, mbind at 1, M_bind at 1;
      rewrite (proj2 (Z.ltb_ge _ _)) by lia;
      (eexists; split; [by rewrite (bind_ok _ _ _ _ _ (say_run _ _))|]);
      by apply quiet_say.
  - destruct fuel as [|fuel]; [lia|].
    cbn [wait_loop]. unfold gets at 1, mbind at 1, M_bind at 1.
    destruct (clock w - start <? timeout)%Z eqn:Hlt.
    + destruct (detect_player_move_none prev w Hprev)
        as (w1 & Hdet & Hq1 & Hpolls & Hclock).
      { intros b' Hb'. apply (Hsee (polls w)); [lia | done]. }
      rewrite (bind_ok _ _ _ _ _ Hdet).
      rewrite (bind_ok _ _ _ _ _ (say_run _ _)).
      rewrite (bind_ok _ _ _ _ _ (sleep_run _ _)).
      set (w2 := set_clock _ _).
      destruct (IH fuel w2) as (w' & Hrun & Hq2).
      { lia. }
      { subst w2. cbn. lia. }
      { intros k b' Hk. apply Hsee. subst w2. cbn in Hk. lia. }
      exists w'. split; [done|].
      apply (quiet_trans _ w1); [done|].
      apply (quiet_trans _ w2); [|done].
      subst w2. by apply (quiet_say (NoMoveYet interval) w1).
    + eexists. split; [by rewrite (bind_ok _ _ _ _ _ (say_run _ _))|].
      by apply quiet_say.
Qed.

End Waiting.

(** C7. When each of the at most twelve polls that fit in the 60 s timeout
    (one every 5 s) shows no cell gone from empty in the snapshot to a
    player mark, [wait_for_player_move] returns [None] and the turn loop of
    [run_game] returns [False] right after printing that the game is
    aborted; in between the robot has done nothing: no servo was commanded,
    no block was taken, no random number was drawn for a move, and only the
    lines of waiting were printed. *)
Theorem no_player_move_aborts (env : Env) (fuel : nat) (w : World) :
  wf_board (board w) →
  (∀ k b', polls w ≤ k < polls w + 12 → perceive env k = Some b' →
           wf_board b' ∧ no_new_player_mark (board w) b') →
  12 ≤ fuel →
  ∃ w1 w2,
    wait_for_player_move env fuel (board w)
      default_timeout default_check_interval w = (Ok None, w1)
    ∧ run_game_loop env fuel w = (Ok false, w2)
    ∧ w2 = set_log (log w1 ++ [Printed GameAborted]) w1
    ∧ quiet w w2.
Proof.
  intros Hwf Hsee Hfuel.
  set (w0 := set_log (log w ++ [Printed WaitingForPlayer]) w).
  destruct (wait_loop_timeout env 12 fuel (board w) (clock w0)
              default_timeout default_check_interval w0)
    as (w1 & Hloop & Hq); [done | done | done | | done |].
  { unfold default_timeout, default_check_interval. lia. }
  assert (wait_for_player_move env fuel (board w)
            default_timeout default_check_interval w = (Ok None, w1)) as Hwait.
  { unfold wait_for_player_move.
    rewrite (bind_ok _ _ _ _ _ (say_run _ _)). exact Hloop. }
  exists w1, (set_log (log w1 ++ [Printed GameAborted]) w1).
  split; [done|]. split; [|split; [done|]].
  - destruct fuel as [|fuel']; [lia|]. cbn [run_game_loop].
    rewrite (bind_ok _ _ w w (board w)) by reflexivity.
    rewrite (bind_ok _ _ _ _ _ Hwait).
    by rewrite (bind_ok _ _ _ _ _ (say_run _ _)).
  - apply (quiet_trans _ w0); [by apply quiet_say|].
    apply (quiet_trans _ w1); [done | by apply quiet_say].
Qed.

Lemma no_new_mark_on_empty (prev : Board) : no_new_player_mark prev empty_board.
Proof.
  intros row col [_ Hget].
  destruct (board_get_range empty_board row col 1 wf_empty_board Hget)
    as [Hr Hc].
  index3 Hr; index3 Hc; discriminate.
Qed.

Lemma no_player_move_aborts_witness :
  ∃ w1 w2,
    wait_for_player_move still_env 12 (board world0)
      default_timeout default_check_interval world0 = (Ok None, w1)
    ∧ run_game_loop still_env 12 world0 = (Ok false, w2)
    ∧ w2 = set_log (log w1 ++ [Printed GameAborted]) w1
    ∧ quiet world0 w2.
Proof.
  apply (no_player_move_aborts still_env 12 world0).
  - apply wf_empty_board.
  - intros k b' _ [= <-]. split; [apply wf_empty_board|].
    apply no_new_mark_on_empty.
  - lia.
Defined.

(** ** C10: the robot out of blocks *)

Lemma for_do_pure {A : Type} (xs : list A) (body : A → M unit) (w : World) :
  (∀ x, x ∈ xs → body x w = (Ok tt, w)) →
  for_do xs body w = (Ok tt, w).
Proof.
  induction xs as [|x xs IH]; intros Hbody; [done|].
  cbn [for_do]. rewrite (bind_ok _ _ _ _ _ (Hbody x ltac:(left))).
  apply IH. intros y Hy. apply Hbody. by right.
Qed.

Lemma display_board_run (w : World) :
  wf_board (board w) → valid_cells (board w) →
  display_board w
  = (Ok tt, set_log (log w ++ [Printed (BoardShown (board w))]) w).
Proof.
  intros Hwf Hvalid. unfold display_board.
  rewrite (bind_ok _ _ w w (board w)) by reflexivity.
  rewrite (bind_ok _ _ w w tt); [reflexivity|].
  apply for_do_pure. intros row Hrow%elem_of_seq.
  apply for_do_pure. intros col Hcol%elem_of_seq.
  destruct (board_at_wf w row col Hwf) as (v & Hv & Hat); [lia | lia |].
  rewrite (bind_ok _ _ _ _ _ Hat).
  pose proof (Hvalid row col v Hv) as Hrange.
  assert (v = 0 ∨ v = 1 ∨ v = 2)%Z as [-> | [-> | ->]] by lia; reflexivity.
Qed.

Lemma not_draw_has_empty (b : Board) :
  check_draw b = false → ∃ row col, board_get b row col = Ok 0%Z.
Proof.
  unfold check_draw. rewrite negb_false_iff. apply board_has_empty.
Qed.

(** The robot's turn with every red block used: a cell is chosen, the pick
    fails, the turn ends the game, and nothing but the log and the position
    in the random stream has changed. *)
Lemma robot_turn_out_of_blocks (env : Env) (w : World) :
  wf_board (board w) →
  check_draw (board w) = false →
  Forall (λ used, used = true) (red_blocks_used w) →
  ∃ row col n,
    board_get (board w) row col = Ok 0%Z
    ∧ pick_block env true
        (set_log (log w ++ [Printed RobotsTurn; Printed (RobotDecides row col)])
           (set_draws n w))
      = (Ok false,
         set_log (log w ++ [Printed RobotsTurn; Printed (RobotDecides row col);
                            Printed WarnNoMoreBlocks; Printed ErrNoBlocks])
           (set_draws n w))
    ∧ robot_turn env w
      = (Ok true,
         set_log (log w ++ [Printed RobotsTurn; Printed (RobotDecides row col);
                            Printed WarnNoMoreBlocks; Printed ErrNoBlocks;
                            Printed OutOfBlocks])
           (set_draws n w)).
Proof.
  intros Hwf Hdraw Hused.
  set (wa := set_log (log w ++ [Printed RobotsTurn]) w).
  destruct (get_robot_move_spec env wa Hwf)
    as (corners & edges & n & Hcor & Hedg & Hrun).
  pose proof (choose_sound (board w) corners edges Hwf Hcor Hedg) as Hsound.
  change (board wa) with (board w) in Hrun.
  destruct (choose (board w) corners edges) as [[row col]|].
  2:{ destruct (not_draw_has_empty _ Hdraw) as (row & col & Hget).
      by destruct (Hsound row col). }
  destruct Hsound as (_ & _ & Hget).
  exists row, col, n. split; [done|].
  assert (∀ w', red_blocks_used w' = red_blocks_used w →
            pick_block env true w'
            = (Ok false,
               set_log (log w' ++ [Printed WarnNoMoreBlocks; Printed ErrNoBlocks]) w'))
    as Hpick.
  { intros w' Hred. unfold pick_block.
    rewrite (bind_ok _ _ _ _ _ (allocate_exhausted true w' ltac:(by cbn; rewrite Hred))).
    rewrite (bind_ok _ _ _ _ _ (say_run _ _)). cbn.
    by rewrite <- app_assoc. }
  split.
  - rewrite Hpick by done. cbn. by rewrite <- app_assoc.
  - unfold robot_turn.
    rewrite (bind_ok _ _ _ _ _ (say_run _ w)).
    rewrite (bind_ok _ _ _ _ _ Hrun).
    rewrite (bind_ok _ _ _ _ _ (say_run _ _)).
    erewrite bind_ok; [|by apply Hpick].
    cbv iota. rewrite (bind_ok _ _ _ _ _ (say_run _ _)).
    cbn. by rewrite <- !app_assoc.
Qed.

(** C10. When a player move has been detected, the player has not won, the
    board is not full and every red block is used, the turn loop of
    [run_game] chooses a cell, fails to pick a block, and ends the game
    there ("Robot couldn't complete move - out of blocks", "Game over!"):
    the board is the one perceived after the player's move, with the chosen
    cell still empty; no servo was commanded, no inventory changed, and no
    further poll was made. The loop returns [True]. *)
Theorem out_of_blocks_keeps_board (env : Env) (fuel : nat) (w w1 : World)
    (mv : nat * nat) :
  wait_for_player_move env (S fuel) (board w)
    default_timeout default_check_interval w = (Ok (Some mv), w1) →
  wf_board (board w1) →
  valid_cells (board w1) →
  check_win (board w1) 1 = Ok false →
  check_draw (board w1) = false →
  Forall (λ used, used = true) (red_blocks_used w1) →
  ∃ row col w2,
    run_game_loop env (S fuel) w = (Ok true, w2)
    ∧ board w2 = board w1
    ∧ board_get (board w2) row col = Ok 0%Z
    ∧ log w2 = log w1 ++ [Printed (BoardShown (board w1)); Printed RobotsTurn;
                          Printed (RobotDecides row col);
                          Printed WarnNoMoreBlocks; Printed ErrNoBlocks;
                          Printed OutOfBlocks; Printed GameOver]
    ∧ servo w2 = servo w1
    ∧ red_blocks_used w2 = red_blocks_used w1
    ∧ blue_blocks_used w2 = blue_blocks_used w1
    ∧ polls w2 = polls w1.
Proof.
  intros Hwait Hwf Hvalid Hwin Hdraw Hused.
  set (wb := set_log (log w1 ++ [Printed (BoardShown (board w1))]) w1).
  destruct (robot_turn_out_of_blocks env wb Hwf Hdraw Hused)
    as (row & col & n & Hget & _ & Hturn).
  exists row, col. eexists. split; [|split; [|split; [|split]]].
  - cbn [run_game_loop].
    rewrite (bind_ok _ _ w w (board w)) by reflexivity.
    rewrite (bind_ok _ _ _ _ _ Hwait).
    rewrite (bind_ok _ _ _ _ _ (display_board_run w1 Hwf Hvalid)).
    rewrite (bind_ok _ _ wb wb (board w1)) by reflexivity.
    rewrite (bind_ok _ _ wb wb false) by (unfold lift; by rewrite Hwin).
    erewrite (bind_ok _ _ wb _ true).
    + by rewrite (bind_ok _ _ _ _ _ (say_run _ _)).
    + rewrite (bind_ok _ _ wb wb (board w1)) by reflexivity.
      rewrite Hdraw. exact Hturn.
  - reflexivity.
  - exact Hget.
  - cbn. by rewrite <- !app_assoc.
  - done.
Qed.

Lemma valid_cells_intro (b : Board) :
  Forall (Forall (λ v, 0 ≤ v ≤ 2)%Z) b → valid_cells b.
Proof.
  intros Hall row col v Hget. unfold board_get in Hget.
  destruct (b !! row) as [r|] eqn:Hrow; [|done].
  destruct (r !! col) as [x|] eqn:Hcol; [|done].
  injection Hget as ->.
  rewrite Forall_lookup in Hall. specialize (Hall row r Hrow).
  rewrite Forall_lookup in Hall. exact (Hall col v Hcol).
Qed.

Lemma out_of_blocks_keeps_board_witness :
  ∃ row col w2,
    run_game_loop corner_env 1 spent_world = (Ok true, w2)
    ∧ board w2 = [[1; 0; 0]; [0; 0; 0]; [0; 0; 0]]%Z
    ∧ board_get (board w2) row col = Ok 0%Z
    ∧ servo w2 = ∅
    ∧ red_blocks_used w2 = replicate 5 true.
Proof.
  destruct (out_of_blocks_keeps_board corner_env 0 spent_world
              (snd (wait_for_player_move corner_env 1 (board spent_world)
                      default_timeout default_check_interval spent_world))
              (0, 0))
    as (row & col & w2 & Hrun & Hboard & Hget & _ & Hservo & Hred & _).
  - vm_compute. reflexivity.
  - apply wf_board_grid.
  - apply valid_cells_intro. repeat constructor; lia.
  - reflexivity.
  - reflexivity.
  - repeat constructor.
  - exists row, col, w2.
    split; [exact Hrun|]. split; [exact Hboard|]. split; [exact Hget|].
    split; [exact Hservo | exact Hred].
Defined.

(** With such a camera a whole game runs into the empty inventory: five
    robot moves use the five red blocks and the sixth turn ends the game. *)
Example run_game_reaches_out_of_blocks :
  let r := run_game fickle_env 6 ready_world in
  fst r = Ok true
  ∧ red_blocks_used (snd r) = replicate 5 true
  ∧ board (snd r) = [[1; 0; 0]; [0; 0; 0]; [0; 0; 0]]%Z
  ∧ polls (snd r) = 7
  ∧ drop (length (log (snd r)) - 4) (log (snd r))
    = [Printed WarnNoMoreBlocks; Printed ErrNoBlocks; Printed OutOfBlocks;
       Printed GameOver].
Proof. vm_compute. repeat split; reflexivity. Qed.

(** * Further properties *)

(** ** The block, centre, corner and edge tiers *)

Lemma find_cells_none (p : nat * nat → bool) :
  (∀ row col, row < 3 → col < 3 → p (row, col) = false) → find p cells = None.
Proof.
  intros Hall. destruct (find p cells) as [[row col]|] eqn:Hfind; [|done].
  apply find_some in Hfind as [Hin%list_elem_of_In%cells_range Hp].
  rewrite (Hall row col) in Hp by tauto. discriminate.
Qed.

Lemma no_win_find_none (b : Board) (mark : Z) :
  (∀ r c, ¬ wins_by_placing b mark r c) → find (wins_at b mark) cells = None.
Proof.
  intros Hno. apply find_cells_none. intros row col _ _.
  destruct (wins_at b mark (row, col)) eqn:Hw; [|done].
  apply wins_at_iff in Hw. by destruct (Hno row col).
Qed.

(** X1. On a 3x3 board where no empty cell wins for the robot but some
    empty cell would win for the player, [get_robot_move] returns the first
    such cell in row-major order, and the world is as it was (no random
    number is drawn). *)
Theorem get_robot_move_blocks_first_threat (env : Env) (w : World) :
  wf_board (board w) →
  (∀ r c, ¬ wins_by_placing (board w) 2 r c) →
  (∃ r c, wins_by_placing (board w) 1 r c) →
  ∃ row col,
    get_robot_move env w = (Ok (Some (row, col)), w)
    ∧ wins_by_placing (board w) 1 row col
    ∧ ∀ r c, row_major_before (r, c) (row, col) →
             ¬ wins_by_placing (board w) 1 r c.
Proof.
  intros Hwf Hno (r0 & c0 & Hwin0).
  destruct (find (wins_at (board w) 1) cells) as [[row col]|] eqn:Hfind.
  - exists row, col.
    destruct (find_cells_first _ _ _ Hfind) as [Hhit Hfirst].
    split; [|split].
    + unfold get_robot_move.
      rewrite (bind_ok _ _ _ _ _ (scan_spec 2 w Hwf)).
      rewrite (no_win_find_none _ _ Hno).
      rewrite (bind_ok _ _ _ _ _ (scan_spec 1 w Hwf)). by rewrite Hfind.
    + by apply wins_at_iff.
    + intros r c Hbefore Hwin.
      destruct (board_get_range _ _ _ _ Hwf (proj1 Hwin)) as [Hr Hc].
      apply wins_at_iff in Hwin. rewrite (Hfirst r c Hr Hc Hbefore) in Hwin.
      discriminate.
  - exfalso.
    destruct (board_get_range _ _ _ _ Hwf (proj1 Hwin0)) as [Hr Hc].
    apply wins_at_iff in Hwin0.
    rewrite (find_none _ _ Hfind (r0, c0)) in Hwin0; [discriminate|].
    by apply list_elem_of_In, cells_range.
Qed.

Lemma get_robot_move_blocks_first_threat_witness :
  ∃ row col,
    get_robot_move blind_env (world_with [[1; 0; 2]; [0; 1; 0]; [2; 0; 0]]%Z)
    = (Ok (Some (row, col)), world_with [[1; 0; 2]; [0; 1; 0]; [2; 0; 0]]%Z)
    ∧ wins_by_placing [[1; 0; 2]; [0; 1; 0]; [2; 0; 0]]%Z 1 row col.
Proof.
  destruct (get_robot_move_blocks_first_threat blind_env
              (world_with [[1; 0; 2]; [0; 1; 0]; [2; 0; 0]]%Z)
              (wf_board_grid _ _ _ _ _ _ _ _ _))
    as (row & col & Hrun & Hwin & _).
  - intros r c Hwin.
    destruct (board_get_range _ _ _ _ (wf_board_grid _ _ _ _ _ _ _ _ _)
                (proj1 Hwin)) as [Hr Hc].
    apply wins_at_iff in Hwin. index3 Hr; index3 Hc; discriminate.
  - exists 2, 2. split; [reflexivity|]. eexists. split; reflexivity.
  - exists row, col. split; [exact Hrun | exact Hwin].
Defined.

(** X2. On a 3x3 board where no empty cell wins at once for either side and
    the centre is empty, [get_robot_move] returns (1,1), and the world is as
    it was. *)
Theorem get_robot_move_takes_centre (env : Env) (w : World) :
  wf_board (board w) →
  (∀ mark r c, mark = 1%Z ∨ mark = 2%Z → ¬ wins_by_placing (board w) mark r c) →
  board_get (board w) 1 1 = Ok 0%Z →
  get_robot_move env w = (Ok (Some (1, 1)), w).
Proof.
  intros Hwf Hno Hmid. unfold get_robot_move.
  rewrite (bind_ok _ _ _ _ _ (scan_spec 2 w Hwf)).
  rewrite (no_win_find_none _ 2) by (intros r c; apply Hno; by right).
  rewrite (bind_ok _ _ _ _ _ (scan_spec 1 w Hwf)).
  rewrite (no_win_find_none _ 1) by (intros r c; apply Hno; by left).
  destruct (board_at_wf w 1 1 Hwf) as (v & Hv & Hat); [lia | lia |].
  rewrite (bind_ok _ _ _ _ _ Hat).
  assert (v = 0%Z) as -> by congruence. reflexivity.
Qed.

Lemma get_robot_move_takes_centre_witness :
  get_robot_move blind_env (world_with [[1; 0; 0]; [0; 0; 0]; [0; 0; 2]]%Z)
  = (Ok (Some (1, 1)), world_with [[1; 0; 0]; [0; 0; 0]; [0; 0; 2]]%Z).
Proof.
  apply (get_robot_move_takes_centre blind_env
           (world_with [[1; 0; 0]; [0; 0; 0]; [0; 0; 2]]%Z)
           (wf_board_grid _ _ _ _ _ _ _ _ _)).
  - intros mark r c Hmark Hwin.
    destruct (board_get_range _ _ _ _ (wf_board_grid _ _ _ _ _ _ _ _ _)
                (proj1 Hwin)) as [Hr Hc].
    apply wins_at_iff in Hwin.
    destruct Hmark as [-> | ->]; index3 Hr; index3 Hc; discriminate.
  - reflexivity.
Defined.

Lemma choose_late_tiers (b : Board) (corners edges : list (nat * nat)) :
  (∀ mark r c, mark = 1%Z ∨ mark = 2%Z → ¬ wins_by_placing b mark r c) →
  board_get b 1 1 ≠ Ok 0%Z →
  choose b corners edges
  = match first_some (if_empty b) corners with
    | Some mv => Some mv
    | None => first_some (if_empty b) edges
    end.
Proof.
  intros Hno Hmid. unfold choose.
  rewrite (no_win_find_none _ 2) by (intros r c; apply Hno; by right).
  rewrite (no_win_find_none _ 1) by (intros r c; apply Hno; by left).
  destruct (cell_isb b 0 (1, 1)) eqn:Hc; [|done].
  by apply cell_isb_true in Hc.
Qed.

(** X3. On a 3x3 board where nobody can win at once and the centre is
    taken, [get_robot_move] prefers corners to edges whatever the shuffles
    give: if some corner is empty the answer is an empty corner; if no
    corner is empty the answer is an empty edge, or [None] when no edge is
    empty either. The board is unchanged. *)
Theorem get_robot_move_corner_before_edge (env : Env) (w : World) :
  wf_board (board w) →
  (∀ mark r c, mark = 1%Z ∨ mark = 2%Z → ¬ wins_by_placing (board w) mark r c) →
  board_get (board w) 1 1 ≠ Ok 0%Z →
  ∃ mv w',
    get_robot_move env w = (Ok mv, w')
    ∧ board w' = board w
    ∧ ((∃ row col, (row, col) ∈ corner_cells
                   ∧ board_get (board w) row col = Ok 0%Z) →
       ∃ row col, mv = Some (row, col) ∧ (row, col) ∈ corner_cells
                  ∧ board_get (board w) row col = Ok 0%Z)
    ∧ ((∀ row col, (row, col) ∈ corner_cells →
                   board_get (board w) row col ≠ Ok 0%Z) →
       match mv with
       | Some (row, col) =>
           (row, col) ∈ edge_cells ∧ board_get (board w) row col = Ok 0%Z
       | None =>
           ∀ row col, (row, col) ∈ edge_cells →
                      board_get (board w) row col ≠ Ok 0%Z
       end).
Proof.
  intros Hwf Hno Hmid.
  destruct (get_robot_move_spec env w Hwf)
    as (corners & edges & n & Hcor & Hedg & Hrun).
  rewrite (choose_late_tiers _ _ _ Hno Hmid) in Hrun.
  eexists _, _. split; [exact Hrun|]. split; [done|].
  destruct (first_some (if_empty (board w)) corners) as [[row col]|] eqn:Hc.
  - apply first_some_if_empty in Hc as [Hin Hget]. rewrite Hcor in Hin.
    split.
    + intros _. by exists row, col.
    + intros Hfull. by destruct (Hfull row col Hin).
  - split.
    + intros (row & col & Hin & Hget). rewrite <- Hcor in Hin.
      by destruct (first_some_if_empty_None _ _ _ _ Hc Hin).
    + intros _.
      destruct (first_some (if_empty (board w)) edges) as [[row col]|] eqn:He.
      * apply first_some_if_empty in He as [Hin Hget].
        by rewrite Hedg in Hin.
      * intros row col Hin. rewrite <- Hedg in Hin.
        by apply (first_some_if_empty_None _ _ _ _ He Hin).
Qed.

Lemma get_robot_move_corner_before_edge_witness :
  ∃ row col w',
    get_robot_move blind_env (world_with [[0; 0; 0]; [0; 1; 0]; [0; 0; 0]]%Z)
    = (Ok (Some (row, col)), w')
    ∧ (row, col) ∈ corner_cells.
Proof.
  destruct (get_robot_move_corner_before_edge blind_env
              (world_with [[0; 0; 0]; [0; 1; 0]; [0; 0; 0]]%Z)
              (wf_board_grid _ _ _ _ _ _ _ _ _))
    as (mv & w' & Hrun & _ & Hcorner & _).
  - intros mark r c Hmark Hwin.
    destruct (board_get_range _ _ _ _ (wf_board_grid _ _ _ _ _ _ _ _ _)
                (proj1 Hwin)) as [Hr Hc].
    apply wins_at_iff in Hwin.
    destruct Hmark as [-> | ->]; index3 Hr; index3 Hc; discriminate.
  - discriminate.
  - destruct Hcorner as (row & col & -> & Hin & _).
    + exists 2, 2. split; [by repeat constructor | reflexivity].
    + exists row, col, w'. split; [exact Hrun | exact Hin].
Defined.

(** ** The inventory in any state *)

Lemma first_unused_Some (j i : nat) (l : list bool) :
  first_unused j l = Some i →
  j ≤ i
  ∧ l !! (i - j) = Some false
  ∧ ∀ k, k < i - j → l !! k = Some true.
Proof.
  revert j. induction l as [|used l IH]; intros j; [done|].
  cbn [first_unused]. destruct used; cbn [negb].
  - intros (Hle & Hat & Hbefore)%IH.
    replace (i - j) with (S (i - S j)) by lia.
    split; [lia | split; [done|]].
    intros [|k] Hk; [done|]. apply Hbefore. lia.
  - intros [= ->]. rewrite Nat.sub_diag.
    split; [done | split; [done|]]. intros k Hk. lia.
Qed.

Lemma first_unused_None (j : nat) (l : list bool) :
  first_unused j l = None → Forall (λ used, used = true) l.
Proof.
  revert j. induction l as [|used l IH]; intros j; [by constructor|].
  cbn [first_unused]. destruct used; cbn [negb]; [|done].
  intros Hnone%IH. by constructor.
Qed.

(** X4. In any state of the inventory, [get_next_available_block] returns
    the 1-based number of the first block not used (every block before it
    is used), marks exactly that block and changes nothing else of that
    list; it returns [None] only when every block is used, and then leaves
    the list as it is. It never raises. *)
Theorem get_next_available_block_first_unused (side : bool) (w : World) :
  ∃ r w',
    get_next_available_block side w = (Ok r, w')
    ∧ blocks_of (negb side) w' = blocks_of (negb side) w
    ∧ match r with
      | Some n =>
          ∃ i, n = i + 1
               ∧ blocks_of side w !! i = Some false
               ∧ (∀ k, k < i → blocks_of side w !! k = Some true)
               ∧ blocks_of side w' = <[i := true]> (blocks_of side w)
               ∧ log w' = log w
      | None =>
          Forall (λ used, used = true) (blocks_of side w)
          ∧ blocks_of side w' = blocks_of side w
      end.
Proof.
  unfold get_next_available_block, gets, modify, say, mbind, M_bind, mret, M_ret.
  destruct (first_unused 0 (blocks_of side w)) as [i|] eqn:Hfirst.
  - eexists _, _. split; [reflexivity|].
    split; [apply blocks_of_other|].
    apply first_unused_Some in Hfirst as (_ & Hat & Hbefore).
    rewrite Nat.sub_0_r in *.
    exists i. split; [done | split; [done | split; [done|]]].
    split; [apply blocks_of_set_blocks | by destruct side].
  - eexists _, _. split; [reflexivity|].
    split; [by destruct side|].
    split; [by eapply first_unused_None | by destruct side].
Qed.

(** ** Frames: what a routine leaves alone *)

#[local] Instance same_preorder {X : Type} (proj : World → X) :
  PreOrder (same proj).
Proof.
  split.
  - by intros w.
  - intros w1 w2 w3 H12 H23. unfold same in *. congruence.
Qed.

Lemma res_bind_defined {A B : Type} (m : Res A) (k : A → Res B) :
  m ≠ OutOfFuel → (∀ a, k a ≠ OutOfFuel) → (m ≫= k) ≠ OutOfFuel.
Proof. intros Hm Hk. destruct m; [apply Hk | done | done]. Qed.

Lemma for_first_defined {A R : Type} (xs : list A) (body : A → Res (option R)) :
  (∀ x, body x ≠ OutOfFuel) → for_first xs body ≠ OutOfFuel.
Proof.
  intros Hbody. induction xs as [|x xs IH]; [done|].
  cbn [for_first]. apply res_bind_defined; [done|]. by intros [v|].
Qed.

Lemma board_get_defined (b : Board) (row col : nat) :
  board_get b row col ≠ OutOfFuel.
Proof. unfold board_get. by repeat case_match. Qed.

Lemma board_set_defined (b : Board) (row col : nat) (v : Z) :
  board_set b row col v ≠ OutOfFuel.
Proof. unfold board_set. by repeat case_match. Qed.

Lemma col_slice_defined (b : Board) (col : nat) : col_slice b col ≠ OutOfFuel.
Proof.
  induction b as [|r b IH]; [done|]. cbn [col_slice].
  destruct (r !! col); [|done]. by apply res_bind_defined.
Qed.

Lemma py_and_defined (x y : Res bool) :
  x ≠ OutOfFuel → y ≠ OutOfFuel → py_and x y ≠ OutOfFuel.
Proof.
  intros Hx Hy. unfold py_and. apply res_bind_defined; [done|]. by intros [].
Qed.

Lemma cell_is_defined (b : Board) (row col : nat) (v : Z) :
  cell_is b row col v ≠ OutOfFuel.
Proof.
  unfold cell_is. apply res_bind_defined; [apply board_get_defined | done].
Qed.

Lemma check_win_defined (b : Board) (player : Z) :
  check_win b player ≠ OutOfFuel.
Proof.
  unfold check_win.
  apply res_bind_defined.
  { apply for_first_defined. intros row. apply res_bind_defined.
    - unfold row_slice. by case_match.
    - intros xs. by case_match. }
  intros [v|]; [done|].
  apply res_bind_defined.
  { apply for_first_defined. intros col. apply res_bind_defined.
    - apply col_slice_defined.
    - intros xs. by case_match. }
  intros [v|]; [done|].
  apply res_bind_defined.
  { repeat apply py_and_defined; apply cell_is_defined. }
  intros []; [done|].
  apply res_bind_defined.
  { repeat apply py_and_defined; apply cell_is_defined. }
  by intros [].
Qed.

Section Respects.
Context (R : relation World) `{!PreOrder R}.

Lemma respects_ret {A : Type} (a : A) : respects R (mret a).
Proof using Type*. intros w. split; [done | reflexivity]. Qed.

Lemma respects_bind {A B : Type} (m : M A) (k : A → M B) :
  respects R m → (∀ a, respects R (k a)) → respects R (m ≫= k).
Proof using Type*.
  intros Hm Hk w. unfold mbind, M_bind.
  destruct (Hm w) as [Hfuel HR]. destruct (m w) as [[a| |] w1]; cbn in *.
  - destruct (Hk a w1) as [Hfuel' HR']. split; [done|]. by etrans.
  - done.
  - done.
Qed.

Lemma respects_lift {A : Type} (r : Res A) : r ≠ OutOfFuel → respects R (lift r).
Proof using Type*. intros Hr w. split; [done | reflexivity]. Qed.

Lemma respects_raise {A : Type} (e : exn) : respects R (@raise A e).
Proof using Type*. by apply respects_lift. Qed.

Lemma respects_gets {A : Type} (f : World → A) : respects R (gets f).
Proof using Type*. intros w. split; [done | reflexivity]. Qed.

Lemma respects_modify (f : World → World) :
  (∀ w, R w (f w)) → respects R (modify f).
Proof using Type*. intros Hf w. split; [done | apply Hf]. Qed.

Lemma respects_for_do {A : Type} (xs : list A) (body : A → M unit) :
  (∀ x, respects R (body x)) → respects R (for_do xs body).
Proof using Type*.
  intros Hbody. induction xs as [|x xs IH]; cbn [for_do].
  - apply respects_ret.
  - by apply respects_bind.
Qed.

Lemma respects_for_each {A B : Type} (xs : list A) (body : A → M (option B)) :
  (∀ x, respects R (body x)) → respects R (for_each xs body).
Proof using Type*.
  intros Hbody. induction xs as [|x xs IH]; cbn [for_each].
  - apply respects_ret.
  - apply respects_bind; [done|]. intros [v|]; [apply respects_ret | done].
Qed.

End Respects.

(** What a run that respects [R] tells about its end. *)
Lemma respects_run {A : Type} (R : relation World) (m : M A) (w w' : World)
    (r : Res A) :
  respects R m → m w = (r, w') → r ≠ OutOfFuel ∧ R w w'.
Proof. intros Hm Hrun. specialize (Hm w). by rewrite Hrun in Hm. Qed.

(** Break a routine into its steps. *)
Ltac frame_step :=
  lazymatch goal with
  | |- respects _ (mret _) => apply respects_ret; try apply _
  | |- respects _ (mbind _ _) =>
      apply respects_bind; [try apply _ | | intros ?]
  | |- respects _ (lift _) =>
      apply respects_lift;
      [ try apply _
      | try first [ apply board_get_defined | apply board_set_defined
                  | apply check_win_defined ] ]
  | |- respects _ (raise _) => apply respects_raise; try apply _
  | |- respects _ (gets _) => apply respects_gets; try apply _
  | |- respects _ (modify _) =>
      apply respects_modify; [try apply _ | intros ?; try reflexivity]
  | |- respects _ (for_do _ _) =>
      apply respects_for_do; [try apply _ | intros ?]
  | |- respects _ (for_each _ _) =>
      apply respects_for_each; [try apply _ | intros ?]
  | |- respects _ (let _ := _ in _) => cbv zeta
  | |- respects _ (if ?b then _ else _) => destruct b
  | |- respects _ (match ?x with _ => _ end) => destruct x
  end.

Ltac frame := repeat frame_step.

Lemma respects_weaken {A : Type} (R R' : relation World) (m : M A) :
  (∀ w w', R w w' → R' w w') → respects R m → respects R' m.
Proof. intros Hsub Hm w. destruct (Hm w). split; [done | by apply Hsub]. Qed.

Lemma game_state_inventory (w w' : World) :
  same game_state w w' → same inventory w w'.
Proof. unfold same, game_state, inventory. by intros [= _ -> -> _ _ _]. Qed.

Lemma robot_state_inventory (w w' : World) :
  same robot_state w w' → same inventory w w'.
Proof. unfold same, robot_state, inventory. by intros [= _ -> -> _ _]. Qed.

Lemma beyond_thinking_inventory (w w' : World) :
  same beyond_thinking w w' → same inventory w w'.
Proof. unfold same, beyond_thinking, inventory. by intros [= _ -> -> _ _ _ _]. Qed.

(** *** Motion *)

Lemma move_servo_smoothly_frame (env : Env) (n : nat) (target : Qc)
    (current : option Qc) (steps : nat) (delay : Z) :
  respects (same game_state)
    (move_servo_smoothly env n target current steps delay).
Proof. unfold move_servo_smoothly, servo_read, servo_write, sleep. frame. Qed.

Lemma move_arm_to_position_frame (env : Env) (position : Pose) (smooth : bool) :
  respects (same game_state) (move_arm_to_position env position smooth).
Proof.
  unfold move_arm_to_position, say, servo_write, sleep.
  frame; apply move_servo_smoothly_frame.
Qed.

Lemma open_claw_frame (env : Env) : respects (same game_state) (open_claw env).
Proof. unfold open_claw, say. frame. apply move_servo_smoothly_frame. Qed.

Lemma close_claw_frame (env : Env) : respects (same game_state) (close_claw env).
Proof. unfold close_claw, say. frame. apply move_servo_smoothly_frame. Qed.

Lemma move_to_home_frame (env : Env) :
  respects (same game_state) (move_to_home env).
Proof. unfold move_to_home, say. frame. apply move_arm_to_position_frame. Qed.

(** Close a goal about one of the routines above, chosen by its name. *)
Ltac motion_frame :=
  lazymatch goal with
  | |- respects _ (move_servo_smoothly _ _ _ _ _ _) =>
      apply move_servo_smoothly_frame
  | |- respects _ (move_arm_to_position _ _ _) =>
      apply move_arm_to_position_frame
  | |- respects _ (open_claw _) => apply open_claw_frame
  | |- respects _ (close_claw _) => apply close_claw_frame
  | |- respects _ (move_to_home _) => apply move_to_home_frame
  end.

Lemma place_block_frame (env : Env) (row col : nat) :
  respects (same game_state) (place_block env row col).
Proof.
  unfold place_block, say, sleep, catalog, servo_angle, servo_read.
  frame; motion_frame.
Qed.

(** The part of [pick_block] after the block has been allotted. *)
Lemma pick_block_frame (env : Env) (side : bool) :
  respects (same (λ w, (board w, blocks_of (negb side) w, polls w, draws w,
                        asked w)))
    (pick_block env side).
Proof.
  assert (∀ A (m : M A), respects (same game_state) m →
            respects (same (λ w, (board w, blocks_of (negb side) w, polls w,
                                  draws w, asked w))) m) as Hweak.
  { intros A m. apply respects_weaken. unfold same, game_state.
    intros w w' [= -> Hb Hr -> -> ->]. destruct side; cbn; congruence. }
  unfold pick_block, get_next_available_block, say, sleep, catalog,
    servo_angle, servo_read.
  frame; first [ by destruct side | apply Hweak; motion_frame ].
Qed.

(** X5. Whatever the outcome, also when a catalog lookup or a servo reading
    fails on the way, the motion routines ([move_servo_smoothly],
    [move_arm_to_position], [open_claw], [close_claw], [place_block],
    [move_to_home]) leave the board, both inventories and the positions in
    the camera, random and keyboard streams as they were; [pick_block]
    leaves all of that but the inventory of the side it picks for. *)
Theorem motion_keeps_game_state (env : Env) :
  (∀ n target current steps delay,
     respects (same game_state)
       (move_servo_smoothly env n target current steps delay))
  ∧ (∀ position smooth,
       respects (same game_state) (move_arm_to_position env position smooth))
  ∧ respects (same game_state) (open_claw env)
  ∧ respects (same game_state) (close_claw env)
  ∧ (∀ row col, respects (same game_state) (place_block env row col))
  ∧ respects (same game_state) (move_to_home env)
  ∧ (∀ side,
       respects (same (λ w, (board w, blocks_of (negb side) w, polls w,
                             draws w, asked w)))
         (pick_block env side)).
Proof.
  split; [exact (move_servo_smoothly_frame env)|].
  split; [exact (move_arm_to_position_frame env)|].
  split; [exact (open_claw_frame env)|].
  split; [exact (close_claw_frame env)|].
  split; [exact (place_block_frame env)|].
  split; [exact (move_to_home_frame env) | exact (pick_block_frame env)].
Qed.

Lemma allocate_at (side : bool) (w : World) (i : nat) :
  first_unused 0 (blocks_of side w) = Some i →
  get_next_available_block side w
  = (Ok (Some (i + 1)),
     set_blocks side (<[i := true]> (blocks_of side w)) w).
Proof.
  intros Hfirst.
  unfold get_next_available_block, gets, modify, mbind, M_bind, mret, M_ret.
  by rewrite Hfirst.
Qed.

(** After the block is allotted, the rest of [pick_block] is motion. *)
Lemma pick_block_after_alloc (env : Env) (side : bool) (w w' : World) (i : nat)
    (r : Res bool) :
  first_unused 0 (blocks_of side w) = Some i →
  pick_block env side w = (r, w') →
  same game_state (set_blocks side (<[i := true]> (blocks_of side w)) w) w'.
Proof.
  intros Hfirst. unfold pick_block.
  rewrite (bind_ok _ _ _ _ _ (allocate_at side w i Hfirst)).
  intros Hrun.
  eapply (respects_run (same game_state)) in Hrun as [_ H]; [exact H|].
  unfold say, sleep, catalog, servo_angle, servo_read.
  frame; motion_frame.
Qed.

(** X8. When every block of the side is used, [pick_block] returns [False]
    and does nothing but print its two lines: no servo is commanded and
    neither the inventories nor the board change. *)
Theorem pick_block_none_left (env : Env) (side : bool) (w : World) :
  Forall (λ used, used = true) (blocks_of side w) →
  pick_block env side w
  = (Ok false,
     set_log (log w ++ [Printed WarnNoMoreBlocks; Printed ErrNoBlocks]) w).
Proof.
  intros Hused. unfold pick_block.
  rewrite (bind_ok _ _ _ _ _ (allocate_exhausted side w Hused)).
  rewrite (bind_ok _ _ _ _ _ (say_run _ _)). cbn.
  by rewrite <- app_assoc.
Qed.

Lemma pick_block_none_left_witness :
  pick_block blind_env false (set_blue (replicate 5 true) world0)
  = (Ok false,
     set_log [Printed WarnNoMoreBlocks; Printed ErrNoBlocks]
       (set_blue (replicate 5 true) world0)).
Proof.
  apply (pick_block_none_left blind_env false
           (set_blue (replicate 5 true) world0)).
  by apply Forall_replicate.
Defined.

(** ** Detecting the player's move *)

(** A loop whose body leaves the world alone until it returns. *)
Lemma for_each_hit {A B : Type} (xs : list A) (body : A → M (option B))
    (f : A → option B) (g : B → World → World) (w : World) :
  (∀ x, x ∈ xs →
        body x w = match f x with
                   | Some v => (Ok (Some v), g v w)
                   | None => (Ok None, w)
                   end) →
  for_each xs body w
  = match first_some f xs with
    | Some v => (Ok (Some v), g v w)
    | None => (Ok None, w)
    end.
Proof.
  induction xs as [|x xs IH]; intros Hbody; [done|].
  cbn [for_each first_some].
  pose proof (Hbody x ltac:(left)) as Hx.
  destruct (f x) as [v|].
  - by rewrite (bind_ok _ _ _ _ _ Hx).
  - rewrite (bind_ok _ _ _ _ _ Hx). apply IH.
    intros y Hy. apply Hbody. by right.
Qed.

(** The comparison loops of [detect_player_move] on 3x3 grids: the first
    new player mark in row-major order, announced on the console. *)
Lemma detect_scan_spec (prev : Board) (w : World) :
  wf_board prev → wf_board (board w) →
  for_each (seq 0 3) (λ row, for_each (seq 0 3) (λ col,
    p ← lift (board_get prev row col);
    if (p =? 0)%Z then
      c ← board_at row col;
      if (c =? 1)%Z then
        say (DetectedMove row col);;
        mret (Some (row, col))
      else mret None
    else mret None)) w
  = match find (is_new_mark prev (board w)) cells with
    | Some (row, col) =>
        (Ok (Some (row, col)),
         set_log (log w ++ [Printed (DetectedMove row col)]) w)
    | None => (Ok None, w)
    end.
Proof.
  intros Hprev Hwf.
  set (pick := λ cell : nat * nat,
         if is_new_mark prev (board w) cell then Some cell else None).
  set (g := λ (cell : nat * nat) (w0 : World),
         set_log (log w0 ++ [Printed (DetectedMove cell.1 cell.2)]) w0).
  rewrite (for_each_hit _ _
             (λ row, first_some (λ col, pick (row, col)) (seq 0 3)) g).
  - unfold pick, cells. cbn [seq first_some find].
    repeat (destruct (is_new_mark _ _ _); [reflexivity|]). reflexivity.
  - intros row Hrow%elem_of_seq.
    apply (for_each_hit _ _ (λ col, pick (row, col)) g).
    intros col Hcol%elem_of_seq.
    destruct (board_get_wf prev row col Hprev) as [p Hp]; [lia | lia |].
    destruct (board_at_wf w row col Hwf) as (c & Hc & Hat); [lia | lia |].
    unfold pick, is_new_mark, cell_isb. cbn [fst snd]. rewrite Hp, Hc.
    unfold lift at 1, mbind at 1, M_bind at 1.
    destruct (p =? 0)%Z; [|reflexivity].
    rewrite (bind_ok _ _ _ _ _ Hat).
    destruct (c =? 1)%Z; reflexivity.
Qed.

Lemma is_new_mark_iff (prev b' : Board) (row col : nat) :
  is_new_mark prev b' (row, col) = true ↔ new_player_mark prev b' row col.
Proof.
  unfold is_new_mark, new_player_mark.
  by rewrite andb_true_iff, !cell_isb_true.
Qed.

(** X10. When the camera delivers a 3x3 grid that shows, against a 3x3
    snapshot, at least one cell gone from empty to a player mark,
    [detect_player_move] returns the first such cell in row-major order;
    the global board becomes the perceived grid, one more look has been
    taken, and the robot's servos, inventories and random stream are
    untouched. *)
Theorem detect_player_move_first_new_mark (env : Env) (prev b' : Board)
    (w : World) :
  wf_board prev → wf_board b' →
  perceive env (polls w) = Some b' →
  (∃ r c, new_player_mark prev b' r c) →
  ∃ row col w',
    detect_player_move env prev w = (Ok (Some (row, col)), w')
    ∧ new_player_mark prev b' row col
    ∧ (∀ r c, row_major_before (r, c) (row, col) →
              ¬ new_player_mark prev b' r c)
    ∧ board w' = b'
    ∧ polls w' = S (polls w)
    ∧ robot_state w' = robot_state w.
Proof.
  intros Hprev Hwf' Hper (r0 & c0 & Hnew0).
  pose proof (analyze_board_state_run env w) as Hrun. cbn zeta in Hrun.
  rewrite Hper in Hrun.
  set (w2 := set_board b' _) in Hrun.
  pose proof (detect_scan_spec prev w2 Hprev Hwf') as Hscan.
  change (board w2) with b' in Hscan.
  destruct (find (is_new_mark prev b') cells) as [[row col]|] eqn:Hfind.
  - exists row, col. eexists. split; [|split; [|split; [|split; [|split]]]].
    + unfold detect_player_move.
      rewrite (bind_ok _ _ _ _ _ Hrun). cbn [negb].
      rewrite (bind_ok _ _ _ _ _ Hscan). reflexivity.
    + apply is_new_mark_iff. by apply find_some in Hfind as [_ ?].
    + destruct (find_cells_first _ _ _ Hfind) as [_ Hfirst].
      intros r c Hbefore Hnew.
      destruct (board_get_range _ _ _ _ Hprev (proj1 Hnew)) as [Hr Hc].
      apply is_new_mark_iff in Hnew.
      rewrite (Hfirst r c Hr Hc Hbefore) in Hnew. discriminate.
    + reflexivity.
    + reflexivity.
    + reflexivity.
  - exfalso.
    destruct (board_get_range _ _ _ _ Hprev (proj1 Hnew0)) as [Hr Hc].
    apply is_new_mark_iff in Hnew0.
    rewrite (find_none _ _ Hfind (r0, c0)) in Hnew0; [discriminate|].
    by apply list_elem_of_In, cells_range.
Qed.

Lemma detect_player_move_first_new_mark_witness :
  ∃ row col w',
    detect_player_move corner_env empty_board world0
    = (Ok (Some (row, col)), w')
    ∧ new_player_mark empty_board [[1; 0; 0]; [0; 0; 0]; [0; 0; 0]]%Z row col
    ∧ board w' = [[1; 0; 0]; [0; 0; 0]; [0; 0; 0]]%Z.
Proof.
  destruct (detect_player_move_first_new_mark corner_env empty_board
              [[1; 0; 0]; [0; 0; 0]; [0; 0; 0]]%Z world0)
    as (row & col & w' & Hrun & Hnew & _ & Hboard & _).
  - apply wf_empty_board.
  - apply wf_board_grid.
  - reflexivity.
  - exists 0, 0. split; reflexivity.
  - exists row, col, w'. split; [exact Hrun|]. split; [exact Hnew | exact Hboard].
Defined.

(** *** Whatever the camera shows *)

(** A loop whose body changes nothing when it goes on: what a returned
    value and a completed loop tell. *)
Lemma for_each_returned {A B : Type} (xs : list A) (body : A → M (option B))
    (w w' : World) (v : B) :
  (∀ x w1, x ∈ xs → body x w = (Ok None, w1) → w1 = w) →
  for_each xs body w = (Ok (Some v), w') →
  ∃ x, x ∈ xs ∧ body x w = (Ok (Some v), w').
Proof.
  induction xs as [|x xs IH]; intros Hnone; [done|].
  cbn [for_each]. unfold mbind at 1, M_bind at 1.
  destruct (body x w) as [[[v0|]| |] w1] eqn:Hx; try done.
  - intros [= -> ->]. exists x. split; [by left | done].
  - rewrite (Hnone x w1 ltac:(left) Hx).
    intros (y & Hy & Hrun)%IH.
    + exists y. split; [by right | done].
    + intros y w2 Hy. apply Hnone. by right.
Qed.

Lemma for_each_completed {A B : Type} (xs : list A) (body : A → M (option B))
    (w w' : World) :
  (∀ x w1, x ∈ xs → body x w = (Ok None, w1) → w1 = w) →
  for_each xs body w = (Ok None, w') → w' = w.
Proof.
  induction xs as [|x xs IH]; intros Hnone.
  - by intros [= <-].
  - cbn [for_each]. unfold mbind at 1, M_bind at 1.
    destruct (body x w) as [[[v0|]| |] w1] eqn:Hx; try done.
    rewrite (Hnone x w1 ltac:(left) Hx). apply IH.
    intros y w2 Hy. apply Hnone. by right.
Qed.

(** One comparison of [detect_player_move], on grids of any shape. *)
Lemma detect_cell_result (prev : Board) (row col : nat) (w w1 : World)
    (r : option (nat * nat)) :
  (p ← lift (board_get prev row col);
   if (p =? 0)%Z then
     c ← board_at row col;
     if (c =? 1)%Z then
       say (DetectedMove row col);;
       mret (Some (row, col))
     else mret None
   else mret None) w = (Ok r, w1) →
  match r with
  | Some cell =>
      cell = (row, col)
      ∧ new_player_mark prev (board w) row col
      ∧ w1 = set_log (log w ++ [Printed (DetectedMove row col)]) w
  | None => w1 = w
  end.
Proof.
  unfold new_player_mark, board_at, lift, gets, say, modify, mbind, M_bind,
    mret, M_ret.
  destruct (board_get prev row col) as [p| |]; [|done|done].
  destruct (p =? 0)%Z eqn:Hp; [|by intros [= <- <-]].
  apply Z.eqb_eq in Hp as ->.
  destruct (board_get (board w) row col) as [c| |]; [|done|done].
  destruct (c =? 1)%Z eqn:Hc; [|by intros [= <- <-]].
  apply Z.eqb_eq in Hc as ->. by intros [= <- <-].
Qed.

(** A reported move is a genuine one, whatever the camera delivered. *)
Lemma detect_player_move_sound (env : Env) (prev : Board) (w w' : World)
    (row col : nat) :
  detect_player_move env prev w = (Ok (Some (row, col)), w') →
  new_player_mark prev (board w') row col
  ∧ row < 3 ∧ col < 3
  ∧ polls w' = S (polls w)
  ∧ perceive env (polls w) = Some (board w').
Proof.
  unfold detect_player_move.
  pose proof (analyze_board_state_run env w) as Hrun. cbn zeta in Hrun.
  destruct (perceive env (polls w)) as [b'|].
  2:{ rewrite (bind_ok _ _ _ _ _ Hrun). cbn [negb].
      by rewrite (bind_ok _ _ _ _ _ (say_run _ _)). }
  rewrite (bind_ok _ _ _ _ _ Hrun). cbn [negb].
  set (w2 := set_board b' _).
  unfold mbind at 1, M_bind at 1.
  destruct (for_each _ _ w2) as [[[mv|]| |] w3] eqn:Hscan;
    [|by rewrite (bind_ok _ _ _ _ _ (say_run _ _))|done|done].
  intros [= -> ->].
  apply for_each_returned in Hscan as (r & Hr%elem_of_seq & Hrow).
  2:{ intros r w1 _. apply for_each_completed.
      intros c w4 _ Hcell. by apply detect_cell_result in Hcell. }
  apply for_each_returned in Hrow as (c & Hc%elem_of_seq & Hcell).
  2:{ intros c w4 _ Hcell. by apply detect_cell_result in Hcell. }
  apply detect_cell_result in Hcell as ([= -> ->] & Hnew & ->).
  split; [exact Hnew|]. split; [lia|]. split; [lia|]. split; reflexivity.
Qed.

(** Whatever the outcome of a poll, one look was taken, time did not run
    backwards and the robot was left alone. *)
Lemma detect_player_move_any (env : Env) (prev : Board) (w : World) :
  fst (detect_player_move env prev w) ≠ OutOfFuel
  ∧ polls (snd (detect_player_move env prev w)) = S (polls w)
  ∧ (clock w ≤ clock (snd (detect_player_move env prev w)))%Z
  ∧ robot_state (snd (detect_player_move env prev w)) = robot_state w.
Proof.
  unfold detect_player_move.
  pose proof (analyze_board_state_run env w) as Hrun. cbn zeta in Hrun.
  destruct (perceive env (polls w)) as [b'|].
  - rewrite (bind_ok _ _ _ _ _ Hrun). cbn [negb].
    set (w2 := set_board b' _).
    match goal with |- context [?m w2] => set (rest := m) end.
    assert (respects (same but_log) rest) as Hrest.
    { subst rest. unfold board_at, say. frame. }
    destruct (Hrest w2) as [Hfuel Hsame].
    unfold same, but_log in Hsame.
    injection Hsame as Hb Hblue Hred Hservo Hclock Hpolls Hdraws Hasked.
    split; [exact Hfuel|]. split; [by rewrite Hpolls|].
    split; [rewrite Hclock; cbn; lia|].
    unfold robot_state. by rewrite Hblue, Hred, Hservo, Hdraws, Hasked.
  - rewrite (bind_ok _ _ _ _ _ Hrun). cbn [negb].
    rewrite (bind_ok _ _ _ _ _ (say_run _ _)).
    split; [done|]. split; [done|]. split; [cbn; lia | done].
Qed.

(** ** Waiting for the player *)


Section Watching.
Context (env : Env).

Lemma wait_loop_sound (fuel : nat) (prev : Board) (start timeout interval : Z)
    (w w' : World) (row col : nat) :
  wait_loop env fuel prev start timeout interval w = (Ok (Some (row, col)), w') →
  new_player_mark prev (board w') row col
  ∧ row < 3 ∧ col < 3
  ∧ polls w < polls w'
  ∧ perceive env (polls w' - 1) = Some (board w').
Proof.
  revert w. induction fuel as [|fuel IH]; intros w; cbn [wait_loop];
    rewrite (bind_ok _ _ w w (clock w)) by reflexivity;
    destruct (clock w - start <? timeout)%Z;
    try (by rewrite (bind_ok _ _ _ _ _ (say_run _ _))); [done|].
  unfold mbind at 1, M_bind at 1.
  destruct (detect_player_move_any env prev w) as (_ & Hpolls & _ & _).
  destruct (detect_player_move env prev w) as [[[mv|]| |] w1] eqn:Hdet;
    [| |done|done].
  - intros [= -> ->].
    destruct (detect_player_move_sound _ _ _ _ _ _ Hdet)
      as (Hnew & Hr & Hc & Hp & Hper).
    split; [done|]. split; [done|]. split; [done|]. split; [lia|].
    rewrite Hp. by replace (S (polls w) - 1) with (polls w) by lia.
  - rewrite (bind_ok _ _ _ _ _ (say_run _ _)).
    rewrite (bind_ok _ _ _ _ _ (sleep_run _ _)).
    intros (Hnew & Hr & Hc & Hp & Hper)%IH.
    cbn [snd] in Hpolls. cbn in Hp.
    split; [done|]. split; [done|]. split; [done|]. split; [lia | done].
Qed.

Lemma wait_loop_any (n fuel : nat) (prev : Board) (start timeout interval : Z)
    (w : World) :
  (0 < interval)%Z →
  n ≤ fuel →
  (timeout - (clock w - start) ≤ interval * Z.of_nat n)%Z →
  fst (wait_loop env fuel prev start timeout interval w) ≠ OutOfFuel
  ∧ polls w ≤ polls (snd (wait_loop env fuel prev start timeout interval w))
  ∧ polls (snd (wait_loop env fuel prev start timeout interval w)) ≤ polls w + n
  ∧ robot_state (snd (wait_loop env fuel prev start timeout interval w))
    = robot_state w.
Proof.
  intros Hint. revert fuel w.
  induction n as [|n IH]; intros fuel w Hle Hfuel.
  - destruct fuel; cbn [wait_loop];
      rewrite (bind_ok _ _ w w (clock w)) by reflexivity;
      rewrite (proj2 (Z.ltb_ge _ _)) by lia;
      rewrite (bind_ok _ _ _ _ _ (say_run _ _));
      (split; [done|]; split; [done|]; split; [cbn; lia | done]).
  - destruct fuel as [|fuel]; [lia|]. cbn [wait_loop].
    rewrite (bind_ok _ _ w w (clock w)) by reflexivity.
    destruct (clock w - start <? timeout)%Z.
    2:{ rewrite (bind_ok _ _ _ _ _ (say_run _ _)).
        split; [done|]. split; [done|]. split; [cbn; lia | done]. }
    destruct (detect_player_move_any env prev w)
      as (Hfuel1 & Hpolls & Hclock & Hrobot).
    destruct (detect_player_move env prev w) as [[[mv|]| |] w1] eqn:Hdet;
      cbn [fst snd] in *; [| | |done].
    + rewrite (bind_ok _ _ _ _ _ Hdet). unfold mret, M_ret. cbn [fst snd].
      split; [done|]. split; [lia|]. split; [lia | done].
    + rewrite (bind_ok _ _ _ _ _ Hdet).
      rewrite (bind_ok _ _ _ _ _ (say_run _ _)).
      rewrite (bind_ok _ _ _ _ _ (sleep_run _ _)).
      set (w2 := set_clock _ _).
      destruct (IH fuel w2) as (Hf & Hp1 & Hp2 & Hr); [lia | | ].
      { subst w2. cbn. lia. }
      split; [done|].
      change (polls w2) with (polls w1) in *.
      change (robot_state w2) with (robot_state w1) in *.
      split; [lia|]. split; [lia | congruence].
    + rewrite (bind_raise _ _ _ _ _ Hdet). cbn [fst snd].
      split; [done|]. split; [lia|]. split; [lia | done].
Qed.

End Watching.

(** X11. Whatever the camera delivers and however long it takes, when
    [wait_for_player_move] returns a move it is a genuine one: the cell lies
    in the grid, was empty in the snapshot and carries a player mark in the
    global board, which is the grid perceived at the last look taken. *)
Theorem wait_for_player_move_sound (env : Env) (fuel : nat) (prev : Board)
    (timeout interval : Z) (w w' : World) (row col : nat) :
  wait_for_player_move env fuel prev timeout interval w
  = (Ok (Some (row, col)), w') →
  new_player_mark prev (board w') row col
  ∧ row < 3 ∧ col < 3
  ∧ polls w < polls w'
  ∧ perceive env (polls w' - 1) = Some (board w').
Proof.
  unfold wait_for_player_move.
  rewrite (bind_ok _ _ _ _ _ (say_run _ w)).
  set (w0 := set_log _ w).
  rewrite (bind_ok _ _ w0 w0 (clock w0)) by reflexivity.
  intros H. by apply (wait_loop_sound env) in H.
Qed.

Lemma wait_for_player_move_sound_witness :
  new_player_mark empty_board
    (board (snd (wait_for_player_move corner_env 12 empty_board
                   default_timeout default_check_interval world0))) 0 0.
Proof.
  apply (wait_for_player_move_sound corner_env 12 empty_board
           default_timeout default_check_interval world0
           (snd (wait_for_player_move corner_env 12 empty_board
                   default_timeout default_check_interval world0)) 0 0).
  vm_compute. reflexivity.
Defined.

(** X12. Whatever the camera delivers, a wait whose timeout is at most [n]
    check intervals takes at most [n] looks and then stops (with fuel for
    [n] rounds it never runs out of fuel); while it waits, the servos, the
    inventories, the random stream and the keyboard are left alone. With
    the defaults (60 s, every 5 s) that is at most 12 looks. *)
Theorem wait_for_player_move_bounded (env : Env) (n fuel : nat) (prev : Board)
    (timeout interval : Z) (w : World) :
  (0 < interval)%Z →
  (timeout ≤ interval * Z.of_nat n)%Z →
  n ≤ fuel →
  ∃ r w',
    wait_for_player_move env fuel prev timeout interval w = (r, w')
    ∧ r ≠ OutOfFuel
    ∧ polls w ≤ polls w' ≤ polls w + n
    ∧ robot_state w' = robot_state w.
Proof.
  intros Hint Htime Hfuel. unfold wait_for_player_move.
  rewrite (bind_ok _ _ _ _ _ (say_run _ w)).
  set (w0 := set_log _ w).
  rewrite (bind_ok _ _ w0 w0 (clock w0)) by reflexivity.
  destruct (wait_loop_any env n fuel prev (clock w0) timeout interval w0)
    as (Hf & Hp1 & Hp2 & Hr); [done | done | lia |].
  destruct (wait_loop env fuel prev (clock w0) timeout interval w0)
    as [r w'].
  exists r, w'. cbn [fst snd] in *. split; [done|]. split; [done|].
  split; [exact (conj Hp1 Hp2) | exact Hr].
Qed.

Lemma wait_for_player_move_bounded_witness :
  ∃ r w',
    wait_for_player_move still_env 12 empty_board
      default_timeout default_check_interval world0 = (r, w')
    ∧ r ≠ OutOfFuel
    ∧ polls world0 ≤ polls w' ≤ polls world0 + 12
    ∧ robot_state w' = robot_state world0.
Proof.
  apply (wait_for_player_move_bounded still_env 12 12 empty_board
           default_timeout default_check_interval world0).
  - reflexivity.
  - unfold default_timeout, default_check_interval. lia.
  - lia.
Defined.

(** ** Every game ends *)

Lemma unused_insert (l : list bool) (i : nat) :
  l !! i = Some false → unused (<[i := true]> l) + 1 = unused l.
Proof.
  revert i. induction l as [|used l IH]; intros i; [done|].
  destruct i as [|i].
  - intros [= ->]. cbn. lia.
  - intros Hi. change ((used :: l) !! S i) with (l !! i) in Hi.
    apply IH in Hi.
    change (<[S i := true]> (used :: l)) with (used :: <[i := true]> l).
    cbn [unused]. destruct used; lia.
Qed.

Lemma shuffle_down_frame {A : Type} (env : Env) (i : nat) (x : list A) :
  respects (same beyond_thinking) (shuffle_down env i x).
Proof.
  revert x. induction i as [|i IH]; intros x; cbn [shuffle_down].
  - frame.
  - unfold randbelow. frame. apply IH.
Qed.

(** Choosing a move is silent: whatever the board's shape, it prints
    nothing, commands no servo and takes no time or block. *)
Lemma get_robot_move_frame (env : Env) :
  respects (same beyond_thinking) (get_robot_move env).
Proof.
  unfold get_robot_move, try_cell, take_if_empty, board_at, board_store, shuffle.
  frame;
    lazymatch goal with
    | |- respects _ (shuffle_down _ _ _) => apply shuffle_down_frame
    end.
Qed.

Lemma display_board_frame : respects (same but_log) display_board.
Proof. unfold display_board, board_at, say. frame. Qed.

(** A pick for the robot, whatever its outcome: a block is gone exactly
    when it says so. *)
Lemma pick_block_drains (env : Env) (w : World) :
  fst (pick_block env true w) ≠ OutOfFuel
  ∧ (fst (pick_block env true w) = Ok true →
     unused (red_blocks_used (snd (pick_block env true w)))
     < unused (red_blocks_used w)).
Proof.
  split; [apply (pick_block_frame env true)|].
  destruct (first_unused 0 (blocks_of true w)) as [i|] eqn:Hfirst.
  - destruct (pick_block env true w) as [r w'] eqn:Hpick.
    pose proof (pick_block_after_alloc env true w w' i r Hfirst Hpick) as Hsame.
    unfold same, game_state in Hsame. injection Hsame as _ _ Hred _ _ _.
    intros _. cbn [snd]. rewrite Hred.
    apply first_unused_Some in Hfirst as (_ & Hat & _).
    rewrite Nat.sub_0_r in Hat.
    change (blocks_of true w) with (red_blocks_used w) in Hat.
    change (unused (<[i := true]> (red_blocks_used w))
            < unused (red_blocks_used w)).
    pose proof (unused_insert _ _ Hat). lia.
  - unfold pick_block.
    rewrite (bind_ok _ _ _ _ _
               (allocate_exhausted true w (first_unused_None _ _ Hfirst))).
    rewrite (bind_ok _ _ _ _ _ (say_run _ _)). by intros [=].
Qed.

(** A step of a routine that respects [R], then the rest from any world
    the step can leave. *)
Lemma bind_any {A B : Type} (R : relation World) (m : M A) (k : A → M B)
    (w : World) :
  respects R m →
  (∀ a w1, R w w1 → m w = (Ok a, w1) → fst (k a w1) ≠ OutOfFuel) →
  fst ((m ≫= k) w) ≠ OutOfFuel.
Proof.
  intros Hm Hk. destruct (Hm w) as [Hfuel HR]. unfold mbind, M_bind.
  destruct (m w) as [[a|e|] w1]; cbn [fst snd] in *.
  - by apply Hk.
  - done.
  - done.
Qed.

Lemma analyze_board_state_frame (env : Env) :
  respects (same robot_state) (analyze_board_state env).
Proof. unfold analyze_board_state, say, sleep. frame. Qed.

Lemma input_frame (env : Env) : respects (same inventory) (input env).
Proof. unfold input. frame. Qed.

Lemma board_store_frame (row col : nat) (v : Z) :
  respects (same inventory) (board_store row col v).
Proof. unfold board_store. frame. Qed.

Lemma but_log_inventory (w w' : World) :
  same but_log w w' → same inventory w w'.
Proof. unfold same, but_log, inventory. by intros [= _ -> -> _ _ _ _ _]. Qed.

(** The wait with the defaults, whatever the camera shows. *)
Lemma wait_for_player_move_frame (env : Env) (fuel : nat) (prev : Board) :
  12 ≤ fuel →
  respects (same robot_state)
    (wait_for_player_move env fuel prev default_timeout default_check_interval).
Proof.
  intros Hfuel w. unfold wait_for_player_move.
  rewrite (bind_ok _ _ _ _ _ (say_run _ w)).
  set (w0 := set_log _ w).
  rewrite (bind_ok _ _ w0 w0 (clock w0)) by reflexivity.
  destruct (wait_loop_any env 12 fuel prev (clock w0) default_timeout
              default_check_interval w0)
    as (Hf & _ & _ & Hr);
    [done | done | unfold default_timeout, default_check_interval; lia |].
  split; [exact Hf | exact Hr].
Qed.

(** A turn of the robot, whatever the board: it stops, and when it leaves
    the game open a red block is gone. *)
Lemma robot_turn_any (env : Env) (w : World) :
  fst (robot_turn env w) ≠ OutOfFuel
  ∧ (fst (robot_turn env w) = Ok false →
     unused (red_blocks_used (snd (robot_turn env w)))
     < unused (red_blocks_used w)).
Proof.
  unfold robot_turn.
  rewrite (bind_ok _ _ _ _ _ (say_run _ w)).
  set (wa := set_log _ w).
  destruct (get_robot_move_frame env wa) as [Hfuel Hthink].
  apply beyond_thinking_inventory in Hthink.
  destruct (get_robot_move env wa) as [[mv|e|] wb] eqn:Hmove;
    cbn [fst snd] in Hfuel, Hthink.
  - rewrite (bind_ok _ _ _ _ _ Hmove). destruct mv as [[row col]|].
    + rewrite (bind_ok _ _ _ _ _ (say_run _ wb)).
      set (wc := set_log _ wb).
      destruct (pick_block_drains env wc) as [Hfuel' Hdrain].
      destruct (pick_block env true wc) as [[picked|e|] wd] eqn:Hpick;
        cbn [fst snd] in Hfuel', Hdrain.
      * rewrite (bind_ok _ _ _ _ _ Hpick). destruct picked; cbv iota.
        -- specialize (Hdrain eq_refl).
           lazymatch goal with
           | |- fst (?t wd) ≠ _ ∧ _ =>
               assert (respects (same inventory) t) as Htail
           end.
           { unfold display_board, board_at, say. frame.
             - apply (respects_weaken (same game_state));
                 [apply game_state_inventory | apply place_block_frame].
             - apply (respects_weaken (same game_state));
                 [apply game_state_inventory | apply move_to_home_frame].
             - apply board_store_frame. }
           destruct (Htail wd) as [Hfuel'' Hinv].
           split; [exact Hfuel''|]. intros _.
           unfold same, inventory in Hinv, Hthink.
           injection Hinv as _ ->. injection Hthink as _ Hred.
           change (red_blocks_used wc) with (red_blocks_used wb) in Hdrain.
           rewrite Hred in Hdrain. exact Hdrain.
        -- rewrite (bind_ok _ _ _ _ _ (say_run _ wd)). split; by intros [=].
      * rewrite (bind_raise _ _ _ _ _ Hpick). split; by intros [=].
      * done.
    + split; by intros [=].
  - rewrite (bind_raise _ _ _ _ _ Hmove). split; by intros [=].
  - done.
Qed.

(** The rounds of a game: every round that leaves the game open costs a
    red block, so the loop stops after one round more than there are
    blocks. *)
Lemma run_game_loop_any (env : Env) (fuel : nat) :
  ∀ w, unused (red_blocks_used w) + 12 ≤ fuel →
       fst (run_game_loop env fuel w) ≠ OutOfFuel.
Proof.
  induction fuel as [|fuel IH]; intros w Hfuel; [lia|].
  cbn [run_game_loop].
  rewrite (bind_ok _ _ w w (board w)) by reflexivity.
  apply (bind_any (same robot_state));
    [apply wait_for_player_move_frame; lia|].
  intros player_move w1 Hwait _. apply robot_state_inventory in Hwait.
  destruct player_move as [mv|]; [|by intros [=]].
  apply (bind_any (same but_log)); [apply display_board_frame|].
  intros [] w2 Hshow _. apply but_log_inventory in Hshow.
  rewrite (bind_ok _ _ w2 w2 (board w2)) by reflexivity.
  assert (unused (red_blocks_used w2) = unused (red_blocks_used w)) as Hred.
  { unfold same, inventory in Hwait, Hshow.
    injection Hwait as _ Hr1. injection Hshow as _ Hr2. congruence. }
  destruct (check_win (board w2) 1) as [won|e|] eqn:Hwin.
  - rewrite (bind_ok _ _ w2 w2 won) by reflexivity.
    destruct won.
    + rewrite (bind_ok _ _ _ _ true
                 (bind_ok _ _ _ _ _ (say_run PlayerWins w2))).
      by intros [=].
    + cbv beta iota.
      destruct (check_draw (board w2)) eqn:Hdraw.
      * rewrite (bind_ok _ _ w2 (set_log (log w2 ++ [Printed ItsADraw]) w2)
                   true).
        -- by intros [=].
        -- rewrite (bind_ok _ _ w2 w2 (board w2)) by reflexivity.
           by rewrite Hdraw.
      * destruct (robot_turn_any env w2) as [Hstops Hdrain].
        destruct (robot_turn env w2) as [[game_over|e|] w3] eqn:Hturn;
          cbn [fst snd] in Hstops, Hdrain.
        -- rewrite (bind_ok _ _ w2 w3 game_over).
           ++ destruct game_over; [by intros [=]|].
              apply IH. specialize (Hdrain eq_refl). lia.
           ++ rewrite (bind_ok _ _ w2 w2 (board w2)) by reflexivity.
              by rewrite Hdraw.
        -- rewrite (bind_raise _ _ w2 w3 e); [by intros [=]|].
           rewrite (bind_ok _ _ w2 w2 (board w2)) by reflexivity.
           by rewrite Hdraw.
        -- done.
  - rewrite (bind_raise _ _ w2 w2 e) by reflexivity.
    by intros [=].
  - by destruct (check_win_defined _ _ Hwin).
Qed.

(** X14. Whatever the camera shows and the keyboard answers, and from any
    state, [run_game] comes to an end, by returning or by raising: a wait
    for the player gives up after at most 12 looks (60 s, one look every
    5 s), and every round that leaves the game open has taken one of the
    five red blocks the game starts with, so there are at most six rounds.
    In the model: fuel for 17 rounds is never used up. *)
Theorem run_game_terminates (env : Env) (fuel : nat) (w : World) :
  17 ≤ fuel → fst (run_game env fuel w) ≠ OutOfFuel.
Proof.
  intros Hfuel. unfold run_game.
  apply (bind_any (λ _ w', red_blocks_used w' = replicate 5 false));
    [by intros w0|].
  intros [] w1 Hred _.
  rewrite (bind_ok _ _ _ _ _ (say_run _ w1)).
  apply (bind_any (same game_state)); [apply move_to_home_frame|].
  intros [] w2 Hhome _. apply game_state_inventory in Hhome.
  apply (bind_any (same robot_state)); [apply analyze_board_state_frame|].
  intros ok w3 Hlook _. apply robot_state_inventory in Hlook.
  destruct ok; cbn [negb]; [|by intros [=]].
  rewrite (bind_ok _ _ w3 w3 (board w3)) by reflexivity.
  apply (bind_any (same inventory)).
  { unfold display_board, board_at, say. frame. apply input_frame. }
  intros go w4 Hgo _.
  destruct go; cbn [negb]; [|by intros [=]].
  rewrite (bind_ok _ _ _ _ _ (say_run _ w4)).
  apply run_game_loop_any.
  unfold same, inventory in Hhome, Hlook, Hgo. cbn [set_log red_blocks_used].
  injection Hhome as _ Hr1. injection Hlook as _ Hr2. injection Hgo as _ Hr3.
  rewrite Hr3, Hr2, Hr1, Hred. cbn [replicate unused]. lia.
Qed.

Lemma run_game_terminates_witness :
  fst (run_game still_env 17 ready_world) ≠ OutOfFuel.
Proof. apply (run_game_terminates still_env 17 ready_world). lia. Defined.

(** ** Showing the board *)

Lemma symbols_Some (v : Z) (s : string) :
  symbols v = Some s → (0 ≤ v ≤ 2)%Z.
Proof. unfold symbols. repeat case_match; [lia | lia | lia | done]. Qed.

Lemma symbols_None (v : Z) : symbols v = None → ¬ (0 ≤ v ≤ 2)%Z.
Proof. unfold symbols. repeat case_match; [done | done | done | lia]. Qed.

(** X16. On a 3x3 board [display_board] returns normally exactly when every
    cell holds 0, 1 or 2; a cell with any other number, which the grid read
    from the camera may contain, makes it raise [KeyError]. Either way it
    changes nothing but what is printed. *)
Theorem display_board_raises_on_unknown_mark (w : World) :
  wf_board (board w) →
  (valid_cells (board w) → fst (display_board w) = Ok tt)
  ∧ (¬ valid_cells (board w) → fst (display_board w) = Raise KeyError)
  ∧ but_log (snd (display_board w)) = but_log w.
Proof.
  intros Hwf. split; [|split].
  - intros Hvalid. by rewrite (display_board_run w Hwf Hvalid).
  - intros Hinvalid. destruct w as [b blue red sv clk p d a l].
    cbn [board] in Hwf, Hinvalid. grid b Hwf.
    cbv -[symbols].
    repeat lazymatch goal with
           | |- context [symbols ?v] =>
               let H := fresh "Hsym" in
               destruct (symbols v) eqn:H; [|reflexivity]
           end.
    exfalso. apply Hinvalid, valid_cells_intro.
    repeat first [apply Forall_nil_2 | apply Forall_cons_2];
      eapply symbols_Some; eassumption.
  - apply display_board_frame.
Qed.

Lemma display_board_raises_on_unknown_mark_witness :
  (valid_cells [[1; 0; 0]; [0; 3; 0]; [0; 0; 0]]%Z →
   fst (display_board (world_with [[1; 0; 0]; [0; 3; 0]; [0; 0; 0]]%Z)) = Ok tt)
  ∧ (¬ valid_cells [[1; 0; 0]; [0; 3; 0]; [0; 0; 0]]%Z →
     fst (display_board (world_with [[1; 0; 0]; [0; 3; 0]; [0; 0; 0]]%Z))
     = Raise KeyError)
  ∧ but_log (snd (display_board (world_with [[1; 0; 0]; [0; 3; 0]; [0; 0; 0]]%Z)))
    = but_log (world_with [[1; 0; 0]; [0; 3; 0]; [0; 0; 0]]%Z).
Proof.
  apply (display_board_raises_on_unknown_mark
           (world_with [[1; 0; 0]; [0; 3; 0]; [0; 0; 0]]%Z)).
  apply wf_board_grid.
Defined.

(** ** The interpolation of [move_servo_smoothly] *)



(** ** Picking and placing *)













(** ** The robot's turn *)










(** ** A game that does not start *)





(** X17. When the base channel reads [None], as on a driver none of whose
    channels has been commanded yet, [run_game] stops with [TypeError] in
    its first move home: the game has been reset and three lines printed,
    but no servo has been commanded and the board has not been looked
    at. *)
Theorem run_game_unset_channel_raises (env : Env) (fuel : nat) (w : World) :
  kit_angle env SERVO_BASE (servo w !! SERVO_BASE) = NoAngle →
  run_game env fuel w
  = (Raise TypeError,
     set_log (log w ++ [Printed StartingGame; Printed MovingHome;
                        Printed (MovingArm home_position)])
       (set_red (replicate 5 false)
          (set_blue (replicate 5 false) (set_board empty_board w)))).
Proof.
  intros Hread. unfold run_game.
  set (w0 := set_red (replicate 5 false)
               (set_blue (replicate 5 false) (set_board empty_board w))).
  rewrite (bind_ok _ _ w w0 tt) by reflexivity.
  rewrite (bind_ok _ _ _ _ _ (say_run _ w0)).
  set (w1 := set_log (log w0 ++ [Printed StartingGame]) w0).
  set (w3 := set_log (log w ++ [Printed StartingGame; Printed MovingHome;
                                Printed (MovingArm home_position)]) w0).
  apply bind_raise. unfold move_to_home.
  rewrite (bind_ok _ _ _ _ _ (say_run _ w1)).
  unfold move_arm_to_position.
  rewrite (bind_ok _ _ _ _ _ (say_run _ _)).
  apply bind_raise, bind_raise.
  rewrite move_servo_smoothly_unfold.
  lazymatch goal with
  | |- context [start_angle env SERVO_BASE ?t None ?W] =>
      assert (start_angle env SERVO_BASE t None W = None) as ->
        by (unfold start_angle; change (servo W) with (servo w);
            by rewrite Hread)
  end.
  unfold w3, w1, w0. cbn. by rewrite <- !app_assoc.
Qed.

Lemma run_game_unset_channel_raises_witness :
  run_game blind_env 17 world0
  = (Raise TypeError,
     set_log (log world0 ++ [Printed StartingGame; Printed MovingHome;
                             Printed (MovingArm home_position)])
       (set_red (replicate 5 false)
          (set_blue (replicate 5 false) (set_board empty_board world0)))).
Proof. apply (run_game_unset_channel_raises blind_env 17 world0). reflexivity. Defined.
